(** * A user-registry command line over a single table

    Shallow embedding of [app/cli.py]: eight typer commands, each of which
    opens a session on the database, runs one query or one mutation, prints
    a message and leaves the [with] block.

    - [Models]   : the [User] row / Python object (from [app.models]).
    - [Database] : the table, the session (unit of work) and the statements
                   built with [select], [where], [offset], [limit].
    - [Cli]      : the commands, written in the session monad, and the
                   properties of the command layer.                        *)

From Stdlib Require Import ZArith String Ascii List DecimalString Lia.
From stdpp Require Import base option list strings.

Local Open Scope string_scope.
Local Open Scope list_scope.
Local Open Scope Z_scope.

(* ===================================================================== *)
(** ** app.models                                                         *)
(* ===================================================================== *)

Module Models.

(** Modelled from the spec: [app/models.py] is not part of the sources.  The
    spec (section 3) gives the [User] entity four fields: a surrogate integer
    [id] generated by the store on insert (so a freshly constructed Python
    object has none yet), and the strings [username], [email], [password];
    [username] and [email] are each unique across the rows of the table. *)
Record User : Type := mkUser {
  id : option Z;
  username : string;
  email : string;
  password : string
}.

#[global] Instance User_eq_dec : EqDecision User.
Proof. solve_decision. Defined.

#[global] Instance User_inhabited : Inhabited User :=
  populate (mkUser None EmptyString EmptyString EmptyString).

(** [user.email = e] *)
Definition set_email (u : User) (e : string) : User :=
  mkUser (id u) (username u) e (password u).

(** the primary key written back by the store on INSERT *)
Definition set_id (u : User) (i : Z) : User :=
  mkUser (Some i) (username u) (email u) (password u).

End Models.
Export Models.

(* ===================================================================== *)
(** ** SQL [LIKE], as produced by [column.contains(q)]                    *)
(* ===================================================================== *)

Module Like.

(** How the engine compares two characters under LIKE: ASCII letters
    without regard to case (the default of the LIKE operator of SQLite),
    every other character exactly.  This is the engine's doing; the
    docstring of [search_users] says "Case-sensitive". *)
Definition to_lower (c : ascii) : ascii :=
  let n := nat_of_ascii c in
  if (65 <=? n)%nat && (n <=? 90)%nat then ascii_of_nat (n + 32) else c.

Definition same_char (c d : ascii) : bool :=
  Ascii.eqb (to_lower c) (to_lower d).

Fixpoint lower (s : string) : string :=
  match s with
  | EmptyString => EmptyString
  | String c s' => String (to_lower c) (lower s')
  end.

(** [like p s]: does the subject [s] match the pattern [p]?  In a pattern
    [%] stands for any run of characters (possibly none), [_] for exactly
    one character, every other character for itself up to [same_char]. *)
Fixpoint like (p s : string) {struct p} : bool :=
  match p with
  | EmptyString =>
      match s with EmptyString => true | String _ _ => false end
  | String c p' =>
      if Ascii.eqb c "%" then
        (fix any_run (t : string) : bool :=
           like p' t ||
           match t with
           | EmptyString => false
           | String _ t' => any_run t'
           end) s
      else if Ascii.eqb c "_" then
        match s with
        | EmptyString => false
        | String _ s' => like p' s'
        end
      else
        match s with
        | EmptyString => false
        | String d s' => same_char c d && like p' s'
        end
  end.

(** [column.contains(q)] renders as [column LIKE '%' || q || '%']; the
    wildcards inside [q] are not escaped ([autoescape] is off by default). *)
Definition contains (column q : string) : bool :=
  like ("%" +:+ q +:+ "%") column.

(** What "[q] occurs in [s] as a substring" means. *)
Definition substring (q s : string) : Prop :=
  exists pre post : string, s = pre +:+ q +:+ post.

(** The same, executable: [q] is a prefix of some suffix of [s]. *)
Fixpoint occurs (q s : string) : bool :=
  String.prefix q s ||
  match s with
  | EmptyString => false
  | String _ s' => occurs q s'
  end.

(** A query without the two wildcard characters. *)
Fixpoint plain (q : string) : bool :=
  match q with
  | EmptyString => true
  | String c q' =>
      negb (Ascii.eqb c "%") && negb (Ascii.eqb c "_") && plain q'
  end.

End Like.

(* ===================================================================== *)
(** ** app.database: the table, statements and the session                *)
(* ===================================================================== *)

Module Database.

(** The exceptions a statement or a session call can raise. *)
Inductive Exn : Type :=
  | IntegrityError        (* a UNIQUE constraint failed *)
  | InvalidRequestError   (* refresh of an object that has no row *)
  | OverflowError         (* an int that does not fit the engine's integers *)
  | DBAPIError.           (* anything else the engine rejects *)

#[global] Instance Exn_eq_dec : EqDecision Exn.
Proof. solve_decision. Defined.

Inductive Result (A : Type) : Type :=
  | Ok (a : A)
  | Raise (e : Exn).
Arguments Ok {A} a.
Arguments Raise {A} e.

(** *** The table

    The rows of the user table are kept as a list, in storage order: the
    order in which a [select] without ORDER BY yields them. *)

Definition same_id (r u : User) : bool := bool_decide (id r = id u).

(** Modelled from the spec: the UNIQUE constraints of [app/models.py]
    (section 3: "(username) unique, (email) unique, enforced at the store
    level").  [clashes u r]: row [r] forbids storing [u]. *)
Definition clashes (u r : User) : bool :=
  String.eqb (username r) (username u) || String.eqb (email r) (email u).

(** Modelled from the spec: the id "generated by the store on insert"; the
    generator is the usual integer primary key, one more than the largest
    id in the table. *)
Definition next_id (rows : list User) : Z :=
  1 + fold_right (fun r m => Z.max (default 0 (id r)) m) 0 rows.

(** INSERT: fails on a clash, otherwise appends the row under a new id and
    reports that id. *)
Definition sql_insert (u : User) (rows : list User) : Result (Z * list User) :=
  if existsb (clashes u) rows then Raise IntegrityError
  else let i := next_id rows in Ok (i, rows ++ [set_id u i]).

(** UPDATE ... SET (the changed columns) WHERE id = [id new]: [old] is the
    row as it was loaded, [new] the object to write back.  A unique column
    that changes must not take a value some row already holds; otherwise
    the row is overwritten in place. *)
Definition update_clashes (old new r : User) : bool :=
  (negb (String.eqb (username old) (username new))
   && String.eqb (username r) (username new))
  || (negb (String.eqb (email old) (email new))
      && String.eqb (email r) (email new)).

Definition sql_update (old new : User) (rows : list User) : Result (list User) :=
  if existsb (update_clashes old new) rows then Raise IntegrityError
  else Ok (map (fun r => if same_id r new then new else r) rows).

(** DELETE ... WHERE id = [id u] *)
Definition sql_delete (u : User) (rows : list User) : list User :=
  List.filter (fun r => negb (same_id r u)) rows.

(** SELECT ... WHERE id = [id u] *)
Definition sql_get (u : User) (rows : list User) : option User :=
  head (List.filter (fun r => same_id r u) rows).

(** Modelled from the spec: [drop_all] and [create_db_and_tables] of
    [app/database.py] (section 4.2).  [drop_all] deletes the table with all
    its rows; [create_db_and_tables] creates it when absent and leaves an
    existing table untouched.  The table is represented by its rows, so
    dropping and re-creating leaves the empty table. *)
Definition drop_all (rows : list User) : list User := [].
Definition create_db_and_tables (rows : list User) : list User := rows.

(** *** Statements: [select(User).where(...).offset(...).limit(...)] *)

Record Select : Type := mkSelect {
  whereclause : User -> bool;
  offset_clause : option Z;
  limit_clause : option Z
}.

Definition select_User : Select := mkSelect (fun _ => true) None None.

Definition where_ (st : Select) (p : User -> bool) : Select :=
  mkSelect (fun u => whereclause st u && p u) (offset_clause st) (limit_clause st).

Definition offset (st : Select) (n : Z) : Select :=
  mkSelect (whereclause st) (Some n) (limit_clause st).

Definition limit (st : Select) (n : Z) : Select :=
  mkSelect (whereclause st) (offset_clause st) (Some n).

Section Engine.

(** LIMIT and OFFSET travel to the engine as bound integers.  The engine's
    integers are signed 64-bit: an [int] outside that range cannot be bound
    and the call raises [OverflowError] before any row is read. *)
Definition fits_int64 (n : option Z) : bool :=
  match n with
  | Some z => (- 2 ^ 63 <=? z) && (z <? 2 ^ 63)
  | None => true
  end.

(** What the engine does with a negative LIMIT or OFFSET is its own
    business (one engine reads a negative limit as "no limit", another
    rejects the statement), so it is a parameter: [native limit offset rows]
    is consulted only when one of the two is negative. *)
Variable native : option Z -> option Z -> list User -> Result (list User).

Definition negative (n : option Z) : bool :=
  match n with Some z => z <? 0 | None => false end.

Definition window (lim off : option Z) (rows : list User) : Result (list User) :=
  if negb (fits_int64 lim && fits_int64 off) then Raise OverflowError
  else if negative lim || negative off then native lim off rows
  else
    let skipped := match off with Some o => drop (Z.to_nat o) rows | None => rows end in
    Ok (match lim with Some l => take (Z.to_nat l) skipped | None => skipped end).

(** The rows a statement yields, in storage order. *)
Definition run_select (st : Select) (rows : list User) : Result (list User) :=
  window (limit_clause st) (offset_clause st) (List.filter (whereclause st) rows).

(** *** The session

    A session holds the table it talks to, the Python objects it has handed
    out (a reference is an index into [heap]), and the unit of work:
    [new] are the transient objects registered with [db.add], [identity]
    the persistent objects, each with the row it was last read from or
    written to (what a later change is compared against), [deleted] the
    objects marked with [db.delete].  [stdout] collects the printed
    lines. *)
Record Session : Type := mkSession {
  table : list User;
  heap : list User;
  new : list nat;
  identity : list (nat * User);
  deleted : list nat;
  stdout : list string
}.

Definition M (A : Type) : Type := Session -> Result A * Session.

Definition ret {A} (a : A) : M A := fun s => (Ok a, s).

Definition bind {A B} (m : M A) (k : A -> M B) : M B :=
  fun s => match m s with
           | (Ok a, s') => k a s'
           | (Raise e, s') => (Raise e, s')
           end.

(** [try: body  except IntegrityError: handler  else: orelse] *)
Definition try_except_IntegrityError {A B} (body : M A) (handler : M B)
    (orelse : A -> M B) : M B :=
  fun s => match body s with
           | (Ok a, s') => orelse a s'
           | (Raise IntegrityError, s') => handler s'
           | (Raise e, s') => (Raise e, s')
           end.

Definition with_table (s : Session) (rows : list User) : Session :=
  mkSession rows (heap s) (new s) (identity s) (deleted s) (stdout s).

Definition with_heap (s : Session) (h : list User) : Session :=
  mkSession (table s) h (new s) (identity s) (deleted s) (stdout s).

(** [print(line)] *)
Definition print (line : string) : M unit :=
  fun s => (Ok tt, mkSession (table s) (heap s) (new s) (identity s)
                             (deleted s) (stdout s ++ [line])).

(** [User(username=..., email=..., password=...)]: a new transient object *)
Definition User_ (name mail pass : string) : M nat :=
  fun s => (Ok (length (heap s)),
            with_heap s (heap s ++ [mkUser None name mail pass])).

(** reading the object behind a reference *)
Definition deref (r : nat) : M User :=
  fun s => (Ok (heap s !!! r), s).

(** [obj.email = e] *)
Definition setattr_email (r : nat) (e : string) : M unit :=
  fun s => (Ok tt, with_heap s (alter (fun u => set_email u e) r (heap s))).

(** [db.add(obj)]: an object the session does not know yet is scheduled for
    INSERT; one that is already persistent in this session stays where it
    is. *)
Definition db_add (r : nat) : M unit :=
  fun s => if existsb (fun p => Nat.eqb p.1 r) (identity s) then (Ok tt, s)
           else (Ok tt, mkSession (table s) (heap s) (new s ++ [r])
                                  (identity s) (deleted s) (stdout s)).

(** [db.delete(obj)] *)
Definition db_delete (r : nat) : M unit :=
  fun s => (Ok tt, mkSession (table s) (heap s) (new s) (identity s)
                             (deleted s ++ [r]) (stdout s)).

(** One fetched row becomes one object of the session. *)
Definition load (row : User) : M nat :=
  fun s => (Ok (length (heap s)),
            mkSession (table s) (heap s ++ [row]) (new s)
              (identity s ++ [(length (heap s), row)]) (deleted s) (stdout s)).

Fixpoint load_all (rows : list User) : M (list nat) :=
  match rows with
  | [] => ret []
  | row :: rest =>
      bind (load row) (fun r =>
      bind (load_all rest) (fun rs =>
      ret (r :: rs)))
  end.

(** [db.exec(statement)]: the selected rows, in order, not yet fetched.
    (No command queries while it has unflushed changes, so the flush a
    session does before a query has nothing to send.) *)
Definition db_exec (st : Select) : M (list User) :=
  fun s => match run_select st (table s) with
           | Raise e => (Raise e, s)
           | Ok rows => (Ok rows, s)
           end.

(** [.first()] fetches the first row, if there is one, and drops the rest;
    [.all()] fetches every row. *)
Definition first (result : M (list User)) : M (option nat) :=
  bind result (fun rows =>
    match rows with
    | [] => ret None
    | row :: _ => bind (load row) (fun r => ret (Some r))
    end).

Definition all (result : M (list User)) : M (list nat) :=
  bind result load_all.

(** *** Flushing the unit of work *)

Definition flush_new (r : nat) (s : Session) : Result Session :=
  match sql_insert (heap s !!! r) (table s) with
  | Raise e => Raise e
  | Ok (i, rows) =>
      Ok (with_heap (with_table s rows) (alter (fun u => set_id u i) r (heap s)))
  end.

(** A persistent object is written back only when it differs from the row
    it was loaded from. *)
Definition flush_dirty (p : nat * User) (s : Session) : Result Session :=
  let u := heap s !!! p.1 in
  if bool_decide (u = p.2) then Ok s
  else match sql_update p.2 u (table s) with
       | Raise e => Raise e
       | Ok rows => Ok (with_table s rows)
       end.

Definition flush_deleted (r : nat) (s : Session) : Result Session :=
  Ok (with_table s (sql_delete (heap s !!! r) (table s))).

Fixpoint flush_each {R} (step : R -> Session -> Result Session)
    (rs : list R) (s : Session) : Result Session :=
  match rs with
  | [] => Ok s
  | r :: rest =>
      match step r s with
      | Raise e => Raise e
      | Ok s' => flush_each step rest s'
      end
  end.

Definition flush (s : Session) : Result Session :=
  match flush_each flush_new (new s) s with
  | Raise e => Raise e
  | Ok s1 =>
      match flush_each flush_dirty (identity s) s1 with
      | Raise e => Raise e
      | Ok s2 => flush_each flush_deleted (deleted s) s2
      end
  end.

(** The persistent objects after a flush: those that were not deleted and
    those that were new, each with the row just written. *)
Definition persistent_after (s s' : Session) : list (nat * User) :=
  map (fun r => (r, heap s' !!! r))
    (List.filter (fun r => negb (bool_decide (r ∈ deleted s)))
       (map fst (identity s) ++ new s)).

(** [db.commit()]: flush, then make the result the table.  When a statement
    of the flush fails the transaction is undone: the table is as before
    and the exception is raised. *)
Definition db_commit : M unit :=
  fun s => match flush s with
           | Raise e => (Raise e, s)
           | Ok s' =>
               (Ok tt,
                mkSession (table s') (heap s') [] (persistent_after s s')
                  [] (stdout s'))
           end.

(** Forgetting the changes made to a persistent object. *)
Definition restore (p : nat * User) (h : list User) : list User :=
  <[p.1 := p.2]> h.

(** [db.rollback()]: the unit of work is discarded and the persistent
    objects are again what their rows say. *)
Definition db_rollback : M unit :=
  fun s => (Ok tt,
            mkSession (table s) (fold_right restore (heap s) (identity s))
              [] (identity s) [] (stdout s)).

(** [db.refresh(obj)]: the object is read again from its row; only an
    object that has a row can be refreshed. *)
Definition db_refresh (r : nat) : M unit :=
  fun s => match sql_get (heap s !!! r) (table s) with
           | Some row =>
               (Ok tt,
                mkSession (table s) (<[r := row]> (heap s)) (new s)
                  ((r, row) :: List.filter (fun p => negb (Nat.eqb p.1 r))
                                 (identity s))
                  (deleted s) (stdout s))
           | None => (Raise InvalidRequestError, s)
           end.

(** Calling a function of [app.database] that acts on the engine directly. *)
Definition on_engine (f : list User -> list User) : M unit :=
  fun s => (Ok tt, with_table s (f (table s))).

(** *** [with get_session() as db: body] *)

(** What a command leaves behind: the table, the printed lines, and the
    exception that ended it, if any. *)
Record Outcome : Type := mkOutcome {
  store : list User;
  output : list string;
  raised : option Exn
}.

(** Modelled from the spec: [get_session] of [app/database.py] (section
    4.1).  It opens one session on the store and hands it to the body;
    nothing is committed implicitly, and the session is closed on every
    way out of the block, an exception included, so whatever the body did
    not commit is gone with it. *)
Definition with_session (body : M unit) (rows : list User) : Outcome :=
  match body (mkSession rows [] [] [] [] []) with
  | (Ok _, s) => mkOutcome (table s) (stdout s) None
  | (Raise e, s) => mkOutcome (table s) (stdout s) (Some e)
  end.

End Engine.

End Database.

Export Database.

(* ===================================================================== *)
(** ** app.cli: the commands                                              *)
(* ===================================================================== *)

Module Cli.

Declare Scope session_scope.
Delimit Scope session_scope with session.
Notation "x <- c ;; k" := (bind c (fun x => k))
  (at level 100, c at next level, k at level 200, right associativity)
  : session_scope.
Notation "c ;; k" := (bind c (fun _ => k))
  (at level 100, k at level 200, right associativity) : session_scope.
Local Open Scope session_scope.

(** [f"{n}"] for an [int] *)
Definition str_int (n : Z) : string := NilZero.string_of_int (Z.to_int n).

Section Commands.

(** The engine's reading of a negative LIMIT or OFFSET (see [window]). *)
Variable native : option Z -> option Z -> list User -> Result (list User).

(** [str(user)], which [print(user)] and the f-strings call; it is defined
    with the model class, outside this file. *)
Variable str : User -> string.

(** [for user in results: print(user)] *)
Fixpoint print_each (results : list nat) : M unit :=
  match results with
  | [] => ret tt
  | user :: rest => (u <- deref user ;; print (str u) ;; print_each rest)
  end.

Definition initialize : list User -> Outcome :=
  with_session
    (on_engine drop_all ;;
     on_engine create_db_and_tables ;;
     bob <- User_ "bob" "bob@mail.com" "bobpass" ;;
     db_add bob ;;
     db_commit ;;
     db_refresh bob ;;
     print "Database Initialized").

Definition get_user (username_ : string) : list User -> Outcome :=
  with_session
    (user <- first (db_exec native
               (where_ select_User (fun u => String.eqb (username u) username_))) ;;
     match user with
     | None => print ("Error: " +:+ username_ +:+ " not found!")
     | Some user => (u <- deref user ;; print (str u))
     end).

Definition get_all_users : list User -> Outcome :=
  with_session
    (all_users <- all (db_exec native select_User) ;;
     match all_users with
     | [] => print "No users found"
     | _ :: _ => print_each all_users
     end).

Definition change_email (username_ new_email : string) : list User -> Outcome :=
  with_session
    (user <- first (db_exec native
               (where_ select_User (fun u => String.eqb (username u) username_))) ;;
     match user with
     | None =>
         print ("Error: " +:+ username_ +:+ " not found! Unable to update email.")
     | Some user =>
         (setattr_email user new_email ;;
          db_add user ;;
          db_commit ;;
          u <- deref user ;;
          print ("Success: Updated " +:+ username u +:+ "'s email to " +:+ email u))
     end).

Definition create_user (username_ email_ password_ : string)
    : list User -> Outcome :=
  with_session
    (newuser <- User_ username_ email_ password_ ;;
     try_except_IntegrityError
       (db_add newuser ;;
        db_commit ;;
        db_refresh newuser)
       (db_rollback ;;
        print "Error: Username or email already taken!")
       (fun _ => u <- deref newuser ;; print ("Created: " +:+ str u))).

Definition delete_user (username_ : string) : list User -> Outcome :=
  with_session
    (user <- first (db_exec native
               (where_ select_User (fun u => String.eqb (username u) username_))) ;;
     match user with
     | None =>
         print ("Error: " +:+ username_ +:+ " not found! Unable to delete user.")
     | Some user =>
         (db_delete user ;;
          db_commit ;;
          print ("Success: " +:+ username_ +:+ " deleted"))
     end).

Definition search_users (query : string) : list User -> Outcome :=
  with_session
    (let statement :=
       where_ select_User
         (fun u => Like.contains (username u) query
                   || Like.contains (email u) query) in
     results <- all (db_exec native statement) ;;
     match results with
     | [] => print ("No matches found for: " +:+ query)
     | _ :: _ => print_each results
     end).

Definition list_paginated (limit_ offset_ : Z) : list User -> Outcome :=
  with_session
    (let statement := limit (offset select_User offset_) limit_ in
     results <- all (db_exec native statement) ;;
     match results with
     | [] => print "No users found in this range."
     | _ :: _ =>
         (print ("--- Results (Limit: " +:+ str_int limit_ +:+ ", Offset: "
                 +:+ str_int offset_ +:+ ") ---") ;;
          print_each results)
     end).

(** [cli()]: one invocation of the program runs the one command named on
    the command line; [--limit] and [--offset] default to 10 and 0. *)
Inductive Command : Type :=
  | Initialize
  | GetUser (username_ : string)
  | GetAllUsers
  | ChangeEmail (username_ new_email : string)
  | CreateUser (username_ email_ password_ : string)
  | DeleteUser (username_ : string)
  | SearchUsers (query : string)
  | ListPaginated (limit_ offset_ : option Z).

Definition cli (c : Command) : list User -> Outcome :=
  match c with
  | Initialize => initialize
  | GetUser u => get_user u
  | GetAllUsers => get_all_users
  | ChangeEmail u e => change_email u e
  | CreateUser u e p => create_user u e p
  | DeleteUser u => delete_user u
  | SearchUsers q => search_users q
  | ListPaginated l o => list_paginated (default 10 l) (default 0 o)
  end.

(** Several invocations, one after the other, on the same store. *)
Fixpoint invocations (cs : list Command) (rows : list User) : list User :=
  match cs with
  | [] => rows
  | c :: rest => invocations rest (store (cli c rows))
  end.

End Commands.

(** *** One engine and one [__str__], to run the commands on examples *)

(** An engine that reads a negative LIMIT as "no limit" and a negative
    OFFSET as zero. *)
Definition lenient (lim off : option Z) (rows : list User) : Result (list User) :=
  let nonneg (n : option Z) :=
    match n with Some z => if z <? 0 then None else Some z | None => None end in
  window (fun _ _ r => Ok r) (nonneg lim) (nonneg off) rows.

(** An engine that rejects them. *)
Definition strict (lim off : option Z) (rows : list User) : Result (list User) :=
  Raise DBAPIError.

Definition show (u : User) : string :=
  "id=" +:+ match id u with Some i => str_int i | None => "None" end
  +:+ " username='" +:+ username u +:+ "' email='" +:+ email u
  +:+ "' password='" +:+ password u +:+ "'".

(** *** Vocabulary for the properties *)

(** The row a lookup by exact username yields: the first one, in storage
    order, whose username is [name]. *)
Definition find_user (name : string) (rows : list User) : option User :=
  head (List.filter (fun u => String.eqb (username u) name) rows).

(** The rows the statement of [search_users] selects. *)
Definition search (query : string) (rows : list User) : list User :=
  List.filter (fun u => Like.contains (username u) query
                        || Like.contains (email u) query) rows.

(** A state of the store: the table under its constraints.  Every row has
    an id, and no two rows share an id, a username or an email. *)
Record wf_store (rows : list User) : Prop := mk_wf_store {
  wf_has_id : Forall (fun r => is_Some (id r)) rows;
  wf_id : NoDup (id <$> rows);
  wf_username : NoDup (username <$> rows);
  wf_email : NoDup (email <$> rows)
}.

#[global] Instance wf_store_dec (rows : list User) : Decision (wf_store rows).
Proof.
  refine (cast_if (decide (Forall (fun r => is_Some (id r)) rows
                           /\ NoDup (id <$> rows)
                           /\ NoDup (username <$> rows)
                           /\ NoDup (email <$> rows)))).
  - by destruct a as (? & ? & ? & ?).
  - intros [? ? ? ?]. tauto.
Defined.

(** Four users to run the commands on. *)
Definition bob : User := mkUser (Some 1) "bob" "bob@mail.com" "bobpass".
Definition rick : User := mkUser (Some 2) "rick" "rick@mail.com" "rickpass".
Definition sally : User := mkUser (Some 3) "sally" "sally@mail.com" "sallypass".
Definition pam : User := mkUser (Some 4) "pam" "pam@mail.com" "pampass".
Definition two_users : list User := [bob; rick].
Definition four_users : list User := [bob; rick; sally; pam].

(** The line [list_paginated] prints above a non-empty page. *)
Definition page_header (limit_ offset_ : Z) : string :=
  "--- Results (Limit: " +:+ str_int limit_ +:+ ", Offset: "
  +:+ str_int offset_ +:+ ") ---".

(** What [list_paginated] prints for a page. *)
Definition page_lines (str : User -> string) (limit_ offset_ : Z)
    (page : list User) : list string :=
  match page with
  | [] => ["No users found in this range."]
  | _ :: _ => page_header limit_ offset_ :: map str page
  end.

(* ===================================================================== *)
(** ** Properties                                                         *)
(* ===================================================================== *)

(** *** The session: loading rows and printing them *)

Lemma load_all_fresh (rows : list User) (s : Session) :
  load_all rows s =
    (Ok (seq (length (heap s)) (length rows)),
     mkSession (table s) (heap s ++ rows) (new s)
       (identity s ++ zip (seq (length (heap s)) (length rows)) rows)
       (deleted s) (stdout s)).
Proof.
  revert s. induction rows as [|row rest IH]; intros s.
  - destruct s; cbn. by rewrite !app_nil_r.
  - cbn [load_all]. unfold bind at 1. unfold load at 1.
    unfold bind at 1. rewrite IH. cbn.
    rewrite length_app, Nat.add_1_r, <- !app_assoc. reflexivity.
Qed.

Section Printing.

Variable str : User -> string.

Lemma print_each_loaded (sel before : list User) t n i d out :
  print_each str (seq (length before) (length sel))
    (mkSession t (before ++ sel) n i d out)
  = (Ok tt, mkSession t (before ++ sel) n i d (out ++ map str sel)).
Proof.
  revert before out. induction sel as [|u rest IH]; intros before out.
  - cbn. by rewrite !app_nil_r.
  - cbn [length seq print_each]. unfold bind at 1. unfold deref at 1.
    cbn [heap]. rewrite list_lookup_total_middle by done.
    unfold bind at 1. unfold print at 1. cbn [table heap new identity deleted stdout].
    replace (before ++ u :: rest) with ((before ++ [u]) ++ rest)
      by (by rewrite <- app_assoc).
    replace (S (length before)) with (length (before ++ [u]))
      by (rewrite length_app; cbn; lia).
    rewrite IH. cbn [map]. by rewrite <- (app_assoc out).
Qed.

Lemma print_each_fresh (sel : list User) t n i d out :
  print_each str (seq 0 (length sel)) (mkSession t sel n i d out)
  = (Ok tt, mkSession t sel n i d (out ++ map str sel)).
Proof. exact (print_each_loaded sel [] t n i d out). Qed.

End Printing.

(** *** The table *)

Lemma id_le_next_id (rows : list User) (r : User) (i : Z) :
  r ∈ rows -> id r = Some i -> i < next_id rows.
Proof.
  unfold next_id. induction rows as [|x rest IH]; intros Hin Hid.
  - by apply elem_of_nil in Hin.
  - apply elem_of_cons in Hin as [->|Hin]; cbn [fold_right].
    + rewrite Hid. cbn. lia.
    + specialize (IH Hin Hid). lia.
Qed.

Lemma next_id_fresh (rows : list User) (r : User) :
  r ∈ rows -> id r <> Some (next_id rows).
Proof. intros Hin Hid. pose proof (id_le_next_id rows r _ Hin Hid). lia. Qed.

Lemma sql_get_appended (u : User) (rows : list User) :
  (forall r, r ∈ rows -> id r <> id u) ->
  sql_get u (rows ++ [u]) = Some u.
Proof.
  intros Hfresh. unfold sql_get. rewrite List.filter_app.
  replace (List.filter (fun r => same_id r u) rows) with (@nil User).
  - cbn. unfold same_id. by rewrite bool_decide_eq_true_2.
  - symmetry. induction rows as [|x rest IH]; [done|]. cbn.
    unfold same_id at 1. rewrite bool_decide_eq_false_2.
    + apply IH. intros r Hr. apply Hfresh. by apply list_elem_of_further.
    + apply Hfresh. apply list_elem_of_here.
Qed.

Lemma run_select_where native (p : User -> bool) (rows : list User) :
  run_select native (where_ select_User p) rows = Ok (List.filter p rows).
Proof. reflexivity. Qed.

Lemma window_nonneg native (limit_ offset_ : Z) (rows : list User) :
  0 <= limit_ < 2 ^ 63 -> 0 <= offset_ < 2 ^ 63 ->
  window native (Some limit_) (Some offset_) rows
  = Ok (take (Z.to_nat limit_) (drop (Z.to_nat offset_) rows)).
Proof.
  intros [Hl0 Hl1] [Ho0 Ho1]. unfold window, fits_int64, negative.
  rewrite (proj2 (Z.leb_le (- 2 ^ 63) limit_)) by lia.
  rewrite (proj2 (Z.leb_le (- 2 ^ 63) offset_)) by lia.
  rewrite (proj2 (Z.ltb_lt limit_ (2 ^ 63))), (proj2 (Z.ltb_lt offset_ (2 ^ 63)))
    by done.
  by rewrite (proj2 (Z.ltb_ge limit_ 0)), (proj2 (Z.ltb_ge offset_ 0)).
Qed.

Lemma window_overflow native (limit_ offset_ : Z) (rows : list User) :
  2 ^ 63 <= limit_ \/ 2 ^ 63 <= offset_ ->
  window native (Some limit_) (Some offset_) rows = Raise OverflowError.
Proof.
  intros Hbig. unfold window, fits_int64.
  replace ((- 2 ^ 63 <=? limit_) && (limit_ <? 2 ^ 63)
           && ((- 2 ^ 63 <=? offset_) && (offset_ <? 2 ^ 63))) with false; [done|].
  symmetry. apply andb_false_iff.
  destruct Hbig as [H|H]; [left | right]; apply andb_false_iff; right;
    by apply Z.ltb_ge.
Qed.

(** *** The commands in closed form *)

Section Closed_forms.

Variable native : option Z -> option Z -> list User -> Result (list User).
Variable str : User -> string.

Lemma initialize_eq (rows : list User) :
  initialize rows =
    mkOutcome [mkUser (Some 1) "bob" "bob@mail.com" "bobpass"]
      ["Database Initialized"] None.
Proof. reflexivity. Qed.

Lemma get_user_eq (name : string) (rows : list User) :
  get_user native str name rows =
    mkOutcome rows
      [match find_user name rows with
       | Some u => str u
       | None => "Error: " +:+ name +:+ " not found!"
       end] None.
Proof.
  unfold get_user, with_session, first, find_user, bind, db_exec.
  cbn [table]. rewrite run_select_where.
  by destruct (List.filter _ rows).
Qed.

Lemma all_fresh (st : Select) (rows : list User) :
  all (db_exec native st) (mkSession rows [] [] [] [] []) =
    match run_select native st rows with
    | Raise e => (Raise e, mkSession rows [] [] [] [] [])
    | Ok sel =>
        (Ok (seq 0 (length sel)),
         mkSession rows sel [] (zip (seq 0 (length sel)) sel) [] [])
    end.
Proof.
  unfold all, bind, db_exec. cbn [table].
  destruct (run_select native st rows); [|done].
  by rewrite load_all_fresh.
Qed.

Lemma get_all_users_eq (rows : list User) :
  get_all_users native str rows =
    mkOutcome rows
      (match rows with [] => ["No users found"] | _ :: _ => map str rows end)
      None.
Proof.
  unfold get_all_users, with_session. unfold bind at 1. rewrite all_fresh.
  replace (run_select native select_User rows) with (Ok rows).
  - destruct rows as [|u rest]; [done|].
    change (seq 0 (length (u :: rest))) with (0%nat :: seq 1 (length rest)) at 1.
    cbv iota. change (0%nat :: seq 1 (length rest)) with (seq 0 (length (u :: rest))).
    by rewrite print_each_fresh.
  - unfold run_select, window. cbn. f_equal. induction rows; cbn; congruence.
Qed.

Lemma search_users_eq (query : string) (rows : list User) :
  search_users native str query rows =
    mkOutcome rows
      (match search query rows with
       | [] => ["No matches found for: " +:+ query]
       | _ :: _ => map str (search query rows)
       end) None.
Proof.
  unfold search_users, with_session. unfold bind at 1. rewrite all_fresh.
  rewrite run_select_where. fold (search query rows).
  destruct (search query rows) as [|u rest]; [done|].
  change (seq 0 (length (u :: rest))) with (0%nat :: seq 1 (length rest)) at 1.
  cbv iota. change (0%nat :: seq 1 (length rest)) with (seq 0 (length (u :: rest))).
  by rewrite print_each_fresh.
Qed.

Lemma list_paginated_eq (limit_ offset_ : Z) (rows : list User) :
  list_paginated native str limit_ offset_ rows =
    match window native (Some limit_) (Some offset_) rows with
    | Raise e => mkOutcome rows [] (Some e)
    | Ok [] => mkOutcome rows ["No users found in this range."] None
    | Ok page =>
        mkOutcome rows
          (("--- Results (Limit: " +:+ str_int limit_ +:+ ", Offset: "
            +:+ str_int offset_ +:+ ") ---") :: map str page) None
    end.
Proof.
  unfold list_paginated, with_session. unfold bind at 1. rewrite all_fresh.
  replace (run_select native (limit (offset select_User offset_) limit_) rows)
    with (window native (Some limit_) (Some offset_) rows).
  - destruct (window native (Some limit_) (Some offset_) rows) as [page|e]; [|done].
    destruct page as [|u rest]; [done|].
    change (seq 0 (length (u :: rest))) with (0%nat :: seq 1 (length rest)) at 1.
    cbv iota. change (0%nat :: seq 1 (length rest)) with (seq 0 (length (u :: rest))).
    unfold bind at 1. unfold print at 1. cbn [table heap new identity deleted stdout].
    by rewrite print_each_fresh.
  - unfold run_select. cbn. f_equal. induction rows; cbn; congruence.
Qed.

Lemma delete_user_eq (name : string) (rows : list User) :
  delete_user native name rows =
    match find_user name rows with
    | None =>
        mkOutcome rows
          ["Error: " +:+ name +:+ " not found! Unable to delete user."] None
    | Some r =>
        mkOutcome (sql_delete r rows) ["Success: " +:+ name +:+ " deleted"] None
    end.
Proof.
  unfold delete_user, with_session, first, find_user, bind, db_exec.
  cbn [table]. rewrite run_select_where.
  destruct (List.filter _ rows) as [|r sel]; [done|].
  cbn. unfold db_commit, flush. cbn [new identity deleted flush_each].
  unfold flush_dirty. cbn. rewrite bool_decide_eq_true_2 by done.
  reflexivity.
Qed.

Lemma change_email_eq (name new_email : string) (rows : list User) :
  change_email native name new_email rows =
    match find_user name rows with
    | None =>
        mkOutcome rows
          ["Error: " +:+ name +:+ " not found! Unable to update email."] None
    | Some r =>
        let u := set_email r new_email in
        let done_ := "Success: Updated " +:+ username u +:+ "'s email to "
                     +:+ email u in
        if bool_decide (u = r) then mkOutcome rows [done_] None
        else match sql_update r u rows with
             | Raise e => mkOutcome rows [] (Some e)
             | Ok rows' => mkOutcome rows' [done_] None
             end
    end.
Proof.
  unfold change_email, with_session, first, find_user, bind, db_exec.
  cbn [table]. rewrite run_select_where.
  destruct (List.filter _ rows) as [|r sel]; [done|].
  cbn. unfold db_commit, flush. cbn [new identity deleted flush_each].
  unfold flush_dirty. cbn.
  destruct (bool_decide (set_email r new_email = r)); [done|].
  by destruct (sql_update r (set_email r new_email) rows).
Qed.

Lemma create_user_eq (name mail pass : string) (rows : list User) :
  create_user str name mail pass rows =
    if existsb (clashes (mkUser None name mail pass)) rows
    then mkOutcome rows ["Error: Username or email already taken!"] None
    else
      let row := mkUser (Some (next_id rows)) name mail pass in
      mkOutcome (rows ++ [row]) ["Created: " +:+ str row] None.
Proof.
  unfold create_user, with_session, try_except_IntegrityError, bind.
  cbn. unfold db_commit, flush. cbn [new identity deleted flush_each].
  unfold flush_new. cbn. unfold sql_insert.
  destruct (existsb _ rows); [done|]. cbn.
  change (set_id (mkUser None name mail pass) (next_id rows))
    with (mkUser (Some (next_id rows)) name mail pass).
  unfold db_refresh. cbn [table heap]. cbn [lookup_total list_lookup_total].
  rewrite sql_get_appended; [done|].
  intros r Hr. cbn. by apply next_id_fresh.
Qed.

End Closed_forms.

(** *** LIKE against plain substring search *)

Section Like_facts.

Import Like.

Lemma append_cons (c : ascii) (q s : string) :
  String c q +:+ s = String c (q +:+ s).
Proof. reflexivity. Qed.

Lemma append_nil (s : string) : EmptyString +:+ s = s.
Proof. reflexivity. Qed.

Lemma prefix_iff (q s : string) :
  String.prefix q s = true <-> exists post, s = q +:+ post.
Proof.
  revert s. induction q as [|c q IH]; intros s.
  - split; [intros _; by exists s | intros _; by destruct s].
  - destruct s as [|d s]; cbn [String.prefix].
    + split; [intros H; discriminate H | intros [post H]; discriminate H].
    + destruct (ascii_dec c d) as [->|Hne].
      * rewrite IH. split; intros [post H]; exists post;
          rewrite append_cons in *; congruence.
      * split; [intros H; discriminate H|].
        intros [post H]. rewrite append_cons in H. congruence.
Qed.

Lemma occurs_iff (q s : string) : occurs q s = true <-> substring q s.
Proof.
  unfold substring. induction s as [|d s IH]; cbn [occurs].
  - rewrite orb_false_r, prefix_iff. split.
    + intros [post H]. by exists EmptyString, post.
    + intros [[|c pre] [post H]]; [by exists post | discriminate H].
  - rewrite orb_true_iff, prefix_iff, IH. split.
    + intros [[post H] | (pre & post & H)].
      * by exists EmptyString, post.
      * exists (String d pre), post. by rewrite append_cons, H.
    + intros [[|c pre] [post H]].
      * left. by exists post.
      * right. exists pre, post. rewrite append_cons in H. congruence.
Qed.

Lemma like_any_run (p s : string) :
  like (String "%" p) s =
    like p s || match s with
                | EmptyString => false
                | String _ s' => like (String "%" p) s'
                end.
Proof. by destruct s. Qed.

Lemma like_percent (s : string) : like "%" s = true.
Proof.
  induction s as [|d s IH]; [done|]. rewrite like_any_run, IH. apply orb_true_r.
Qed.

Lemma like_plain_prefix (q s : string) :
  plain q = true -> like (q +:+ "%") s = String.prefix (lower q) (lower s).
Proof.
  revert s. induction q as [|c q IH]; intros s Hq.
  - rewrite append_nil, like_percent. by destruct s.
  - cbn [plain] in Hq. apply andb_true_iff in Hq as [Hc Hq].
    apply andb_true_iff in Hc as [Hc1 Hc2].
    apply negb_true_iff in Hc1, Hc2.
    rewrite append_cons. cbn [like]. rewrite Hc1, Hc2.
    destruct s as [|d s]; [done|]. cbn [lower String.prefix].
    rewrite IH by done. unfold same_char.
    destruct (ascii_dec (to_lower c) (to_lower d)) as [Heq|Hne].
    + by rewrite Heq, Ascii.eqb_refl.
    + apply Ascii.eqb_neq in Hne. by rewrite Hne.
Qed.

(** On a query without wildcards, [contains] is substring search up to the
    case of ASCII letters. *)
Lemma contains_plain (column q : string) :
  plain q = true -> contains column q = occurs (lower q) (lower column).
Proof.
  intros Hq. unfold contains. rewrite append_cons, append_nil.
  induction column as [|d s IH]; cbn [lower occurs].
  - rewrite like_any_run, like_plain_prefix by done. reflexivity.
  - rewrite like_any_run, like_plain_prefix, IH by done. reflexivity.
Qed.

End Like_facts.

(** *** Lookups by exact username *)

Lemma find_user_none (name : string) (rows : list User) :
  (forall r, r ∈ rows -> username r <> name) -> find_user name rows = None.
Proof.
  unfold find_user. induction rows as [|x rest IH]; intros Hno; [done|].
  cbn [List.filter]. destruct (String.eqb_spec (username x) name) as [Heq|Hne].
  - exfalso. apply (Hno x); [apply list_elem_of_here | done].
  - apply IH. intros r Hr. by apply Hno, list_elem_of_further.
Qed.

Lemma find_user_appended (name : string) (rows : list User) (u : User) :
  (forall r, r ∈ rows -> username r <> name) -> username u = name ->
  find_user name (rows ++ [u]) = Some u.
Proof.
  intros Hno Hu. unfold find_user. rewrite List.filter_app.
  pose proof (find_user_none name rows Hno) as Hnone. unfold find_user in Hnone.
  destruct (List.filter _ rows) as [|y ys]; [|discriminate Hnone].
  cbn. by rewrite <- Hu, String.eqb_refl.
Qed.

Lemma find_user_unique (rows : list User) (r : User) :
  NoDup (username <$> rows) -> r ∈ rows -> find_user (username r) rows = Some r.
Proof.
  unfold find_user. induction rows as [|x rest IH]; intros Hnd Hin.
  - by apply elem_of_nil in Hin.
  - cbn [fmap list_fmap] in Hnd. apply NoDup_cons in Hnd as [Hx Hnd].
    cbn [List.filter].
    destruct (String.eqb_spec (username x) (username r)) as [Heq|Hne].
    + apply elem_of_cons in Hin as [->|Hin]; [done|].
      exfalso. apply Hx. rewrite Heq. by apply list_elem_of_fmap_2.
    + apply elem_of_cons in Hin as [->|Hin]; [done|]. by apply IH.
Qed.

Lemma clash_found (u : User) (rows : list User) :
  existsb (clashes u) rows = true <->
  exists r, r ∈ rows /\ (username r = username u \/ email r = email u).
Proof.
  rewrite existsb_exists. unfold clashes. split.
  - intros (r & Hin & Hc). exists r. rewrite list_elem_of_In. split; [done|].
    apply orb_true_iff in Hc as [H|H]; apply String.eqb_eq in H; auto.
  - intros (r & Hin & Hc). exists r. rewrite <- list_elem_of_In. split; [done|].
    apply orb_true_iff. destruct Hc as [H|H]; rewrite H, String.eqb_refl; auto.
Qed.

(** *** Rows under a uniqueness constraint *)

Section Unique_column.

Context {A : Type} (f : User -> A).

Lemma unique_column_inj (rows : list User) (x y : User) :
  NoDup (f <$> rows) -> x ∈ rows -> y ∈ rows -> f x = f y -> x = y.
Proof.
  induction rows as [|z rest IH]; intros Hnd Hx Hy Hxy.
  - by apply elem_of_nil in Hx.
  - cbn [fmap list_fmap] in Hnd. apply NoDup_cons in Hnd as [Hz Hnd].
    apply elem_of_cons in Hx as [->|Hx]; apply elem_of_cons in Hy as [->|Hy].
    + done.
    + exfalso. apply Hz. rewrite Hxy. by apply list_elem_of_fmap_2.
    + exfalso. apply Hz. rewrite <- Hxy. by apply list_elem_of_fmap_2.
    + by apply IH.
Qed.

Lemma unique_column_others (l1 l2 : list User) (r x : User) :
  NoDup (f <$> (l1 ++ r :: l2)) -> x ∈ l1 ++ l2 -> f x <> f r.
Proof.
  intros Hnd Hx Heq.
  assert (x ∈ l1 ++ r :: l2) as Hx'.
  { revert Hx. rewrite !elem_of_app, elem_of_cons. tauto. }
  assert (r ∈ l1 ++ r :: l2) as Hr'.
  { rewrite elem_of_app, elem_of_cons. tauto. }
  pose proof (unique_column_inj _ x r Hnd Hx' Hr' Heq) as ->.
  apply NoDup_fmap_1 in Hnd. apply NoDup_app in Hnd as (_ & Hl1 & Hl2).
  apply NoDup_cons in Hl2 as [Hr _].
  apply elem_of_app in Hx as [Hx|Hx]; [|done].
  apply (Hl1 r Hx). apply list_elem_of_here.
Qed.

End Unique_column.

Lemma sql_delete_split (l1 l2 : list User) (r : User) :
  (forall x, x ∈ l1 ++ l2 -> id x <> id r) ->
  sql_delete r (l1 ++ r :: l2) = l1 ++ l2.
Proof.
  intros Hothers. unfold sql_delete.
  assert (forall l, (forall x, x ∈ l -> id x <> id r) ->
            List.filter (fun x => negb (same_id x r)) l = l) as Hkeep.
  { induction l as [|y l IH]; intros Hl; [done|]. cbn [List.filter].
    unfold same_id at 1.
    rewrite bool_decide_eq_false_2 by (apply Hl, list_elem_of_here).
    cbn [negb]. f_equal. apply IH. intros x Hx.
    by apply Hl, list_elem_of_further. }
  rewrite List.filter_app. cbn [List.filter]. unfold same_id at 2.
  rewrite bool_decide_eq_true_2 by done. cbn [negb].
  rewrite !Hkeep; [done| |]; intros x Hx; apply Hothers;
    rewrite elem_of_app; tauto.
Qed.

Lemma sql_update_split (l1 l2 : list User) (r u : User) :
  id u = id r ->
  (forall x, x ∈ l1 ++ l2 -> id x <> id r) ->
  map (fun x => if same_id x u then u else x) (l1 ++ r :: l2) = l1 ++ u :: l2.
Proof.
  intros Hid Hothers.
  assert (forall l, (forall x, x ∈ l -> id x <> id r) ->
            map (fun x => if same_id x u then u else x) l = l) as Hkeep.
  { induction l as [|y l IH]; intros Hl; [done|]. cbn [map].
    unfold same_id at 1. rewrite bool_decide_eq_false_2.
    - f_equal. apply IH. intros x Hx. by apply Hl, list_elem_of_further.
    - rewrite Hid. apply Hl, list_elem_of_here. }
  rewrite map_app. cbn [map]. unfold same_id at 2.
  rewrite bool_decide_eq_true_2 by done.
  rewrite !Hkeep; [done| |]; intros x Hx; apply Hothers;
    rewrite elem_of_app; tauto.
Qed.

Lemma find_user_in (name : string) (rows : list User) (r : User) :
  find_user name rows = Some r -> r ∈ rows /\ username r = name.
Proof.
  unfold find_user. intros Hhead.
  assert (In r (List.filter (fun u => String.eqb (username u) name) rows)) as Hin.
  { destruct (List.filter _ rows) as [|y ys]; [discriminate Hhead|].
    injection Hhead as ->. by left. }
  apply filter_In in Hin as [Hin Heq].
  split; [by apply list_elem_of_In | by apply String.eqb_eq].
Qed.

Lemma existsb_none {A} (p : A -> bool) (l : list A) (x : A) :
  existsb p l = false -> x ∈ l -> p x = false.
Proof.
  intros Hnone Hin. destruct (p x) eqn:Hpx; [|done].
  rewrite <- Hnone. symmetry. apply existsb_exists.
  exists x. split; [by apply list_elem_of_In | done].
Qed.

Lemma no_clash (u : User) (rows : list User) (r : User) :
  existsb (clashes u) rows = false -> r ∈ rows ->
  username r <> username u /\ email r <> email u.
Proof.
  intros Hnone Hin. pose proof (existsb_none _ _ r Hnone Hin) as Hall.
  unfold clashes in Hall. apply orb_false_iff in Hall as [Hn Hm].
  split; by apply String.eqb_neq.
Qed.

(** *** The constraints hold in every store the commands produce *)

Section Unique_column_updates.

Context {A : Type} (f : User -> A).

Lemma unique_column_snoc (rows : list User) (u : User) :
  NoDup (f <$> rows) -> (forall r, r ∈ rows -> f r <> f u) ->
  NoDup (f <$> (rows ++ [u])).
Proof.
  intros Hnd Hfresh. rewrite fmap_app. apply NoDup_app. split; [done|]. split.
  - intros a Ha Hu. apply list_elem_of_fmap in Ha as (r & -> & Hr).
    apply list_elem_of_singleton in Hu. by apply (Hfresh r).
  - apply NoDup_singleton.
Qed.

Lemma unique_column_filter (p : User -> bool) (rows : list User) :
  NoDup (f <$> rows) -> NoDup (f <$> List.filter p rows).
Proof.
  induction rows as [|x rest IH]; intros Hnd; [done|].
  cbn [fmap list_fmap] in Hnd. apply NoDup_cons in Hnd as [Hx Hnd].
  cbn [List.filter]. destruct (p x); [|by apply IH].
  cbn [fmap list_fmap]. apply NoDup_cons. split; [|by apply IH].
  intros Hin. apply Hx. apply list_elem_of_fmap in Hin as (r & -> & Hr).
  apply list_elem_of_fmap_2.
  by apply list_elem_of_In, filter_In in Hr as [Hr%list_elem_of_In _].
Qed.

Lemma unique_column_replace (l1 l2 : list User) (r u : User) :
  NoDup (f <$> (l1 ++ r :: l2)) ->
  (f u = f r \/ forall x, x ∈ l1 ++ r :: l2 -> f x <> f u) ->
  NoDup (f <$> (l1 ++ u :: l2)).
Proof.
  intros Hnd [Hsame|Hfresh].
  - revert Hnd. by rewrite !fmap_app, !fmap_cons, Hsame.
  - revert Hnd. rewrite !fmap_app, !fmap_cons, !NoDup_app, !NoDup_cons.
    intros (Hl1 & Hcross & Hr & Hl2). split; [done|]. split; [|split; [|done]].
    + intros a Ha Hin. apply elem_of_cons in Hin as [->|Hin].
      * apply list_elem_of_fmap in Ha as (x & Hfx & Hx).
        apply (Hfresh x); [|done]. rewrite elem_of_app. by left.
      * apply (Hcross a Ha). by apply list_elem_of_further.
    + intros Hin. apply list_elem_of_fmap in Hin as (x & Hfx & Hx).
      apply (Hfresh x); [|done]. rewrite elem_of_app, elem_of_cons. by right; right.
Qed.

End Unique_column_updates.

Lemma wf_store_nil : wf_store [].
Proof. split; [apply Forall_nil_2 | apply NoDup_nil_2..]. Qed.

Lemma wf_store_delete (rows : list User) (r : User) :
  wf_store rows -> wf_store (sql_delete r rows).
Proof.
  intros [Hhas Hid Hname Hmail]. unfold sql_delete.
  split; [|by apply unique_column_filter..].
  rewrite Forall_forall in Hhas |- *. intros x Hx. apply Hhas.
  by apply list_elem_of_In, filter_In in Hx as [Hx%list_elem_of_In _].
Qed.

Lemma wf_store_insert (rows : list User) (name mail pass : string) :
  wf_store rows ->
  existsb (clashes (mkUser None name mail pass)) rows = false ->
  wf_store (rows ++ [mkUser (Some (next_id rows)) name mail pass]).
Proof.
  intros [Hhas Hid Hname Hmail] Hnone. rewrite Forall_forall in Hhas. split.
  - apply Forall_forall.
    intros x Hx. apply elem_of_app in Hx as [Hx|Hx]; [by apply Hhas|].
    apply list_elem_of_singleton in Hx as ->. by eexists.
  - apply unique_column_snoc; [done|]. intros r Hr. by apply next_id_fresh.
  - apply unique_column_snoc; [done|]. intros r Hr.
    by destruct (no_clash _ _ r Hnone Hr).
  - apply unique_column_snoc; [done|]. intros r Hr.
    by destruct (no_clash _ _ r Hnone Hr).
Qed.

Lemma wf_store_update (rows : list User) (r : User) (new_email : string)
    (rows' : list User) :
  wf_store rows -> r ∈ rows ->
  sql_update r (set_email r new_email) rows = Ok rows' ->
  wf_store rows'.
Proof.
  intros [Hhas Hid Hname Hmail] Hin. rewrite Forall_forall in Hhas.
  unfold sql_update.
  destruct (existsb _ rows) eqn:Hnone; [discriminate|]. intros [= <-].
  destruct (list_elem_of_split _ _ Hin) as (l1 & l2 & ->).
  rewrite sql_update_split;
    [|done|intros x Hx; by apply (unique_column_others id l1 l2)].
  split.
  - apply Forall_forall. intros x Hx. apply elem_of_app in Hx as [Hx|Hx].
    + apply Hhas. rewrite elem_of_app. by left.
    + apply elem_of_cons in Hx as [->|Hx].
      * apply (Hhas r Hin).
      * apply Hhas. rewrite elem_of_app, elem_of_cons. by right; right.
  - apply (unique_column_replace id l1 l2 r); [done|by left].
  - apply (unique_column_replace username l1 l2 r); [done|by left].
  - apply (unique_column_replace email l1 l2 r); [done|].
    destruct (String.eqb_spec (email r) new_email) as [Heq|Hne]; [by left|].
    right. intros x Hx Hclash.
    pose proof (existsb_none _ _ x Hnone Hx) as Hall.
    unfold update_clashes in Hall. cbn [username email set_email] in Hall, Hclash.
    apply orb_false_iff in Hall as [_ Hall].
    apply andb_false_iff in Hall as [Hall|Hall].
    + apply negb_false_iff, String.eqb_eq in Hall. done.
    + by apply String.eqb_neq in Hall.
Qed.

Section Invariant.

Variable native : option Z -> option Z -> list User -> Result (list User).
Variable str : User -> string.

(** Every command takes a store that satisfies the constraints to one that
    satisfies them; [initialize] does so from any table at all. *)
Lemma wf_store_initialize (rows : list User) : wf_store (store (initialize rows)).
Proof.
  rewrite initialize_eq. cbn [store].
  apply (wf_store_insert [] "bob" "bob@mail.com" "bobpass" wf_store_nil eq_refl).
Qed.

Lemma wf_store_create_user (rows : list User) (name mail pass : string) :
  wf_store rows -> wf_store (store (create_user str name mail pass rows)).
Proof.
  intros Hwf. rewrite create_user_eq.
  destruct (existsb _ rows) eqn:Hnone; [done|]. by apply wf_store_insert.
Qed.

Lemma wf_store_delete_user (rows : list User) (name : string) :
  wf_store rows -> wf_store (store (delete_user native name rows)).
Proof.
  intros Hwf. rewrite delete_user_eq.
  destruct (find_user name rows); [|done]. by apply wf_store_delete.
Qed.

Lemma wf_store_change_email (rows : list User) (name new_email : string) :
  wf_store rows -> wf_store (store (change_email native name new_email rows)).
Proof.
  intros Hwf. rewrite change_email_eq.
  destruct (find_user name rows) as [r|] eqn:Hfind; [|done].
  apply find_user_in in Hfind as [Hin _]. cbv zeta.
  destruct (bool_decide _); [done|].
  destruct (sql_update r (set_email r new_email) rows) as [rows'|e] eqn:Hup;
    [|done].
  by apply (wf_store_update rows r new_email).
Qed.

Lemma wf_store_cli (c : Command) (rows : list User) :
  wf_store rows -> wf_store (store (cli native str c rows)).
Proof.
  intros Hwf. destruct c as [|u| |u e|u e p|u|q|l o]; cbn [cli].
  - apply wf_store_initialize.
  - by rewrite get_user_eq.
  - by rewrite get_all_users_eq.
  - by apply wf_store_change_email.
  - by apply wf_store_create_user.
  - by apply wf_store_delete_user.
  - by rewrite search_users_eq.
  - rewrite list_paginated_eq.
    by destruct (window native _ _ rows) as [[|x page]|e].
Qed.

(** X19.  Whatever is run after [initialize], the store stays under its
    constraints: every row has an id, and no two rows share an id, a
    username or an email. *)
Lemma wf_store_invocations (cs : list Command) (rows : list User) :
  wf_store (invocations native str (Initialize :: cs) rows).
Proof.
  cbn [invocations cli].
  pose proof (wf_store_initialize rows) as Hwf. revert Hwf.
  generalize (store (initialize rows)). induction cs as [|c rest IH]; [done|].
  intros rows' Hwf. cbn [invocations]. by apply IH, wf_store_cli.
Qed.

End Invariant.

(** *** The scenario of the specification, run *)

Example scenario_initialize :
  get_all_users lenient show (store (initialize four_users))
  = mkOutcome [bob]
      ["id=1 username='bob' email='bob@mail.com' password='bobpass'"] None.
Proof. reflexivity. Qed.

Example scenario_create_taken :
  create_user show "bob" "x@x.com" "pw" (store (initialize four_users))
  = mkOutcome [bob] ["Error: Username or email already taken!"] None.
Proof. reflexivity. Qed.

Example scenario_delete_then_list :
  get_all_users lenient show
    (invocations lenient show [Initialize; DeleteUser "bob"] four_users)
  = mkOutcome [] ["No users found"] None.
Proof. reflexivity. Qed.

Example scenario_search_bob :
  output (search_users lenient show "bob" (store (initialize [])))
  = ["id=1 username='bob' email='bob@mail.com' password='bobpass'"]
  /\ output (search_users lenient show "zed" (store (initialize [])))
     = ["No matches found for: zed"].
Proof. split; reflexivity. Qed.

(** A negative limit is the engine's to interpret: one engine returns every
    remaining row, another rejects the statement and the command ends with
    its exception. *)
Example negative_limit_lenient :
  list_paginated lenient show (-1) 1 four_users
  = mkOutcome four_users
      ("--- Results (Limit: -1, Offset: 1) ---" :: map show [rick; sally; pam])
      None.
Proof. reflexivity. Qed.

Example negative_limit_strict :
  list_paginated strict show (-1) 1 four_users
  = mkOutcome four_users [] (Some DBAPIError).
Proof. reflexivity. Qed.

(** The comparison under LIKE folds the case of ASCII letters. *)
Example search_users_folds_case :
  search_users lenient show "BOB" two_users
  = mkOutcome two_users [show bob] None.
Proof. reflexivity. Qed.

Example default_page :
  cli lenient show (ListPaginated None None) four_users
  = mkOutcome four_users
      ("--- Results (Limit: 10, Offset: 0) ---" :: map show four_users) None.
Proof. reflexivity. Qed.

(** *** The claims *)

Section Claims.

Variable native : option Z -> option Z -> list User -> Result (list User).
Variable str : User -> string.

(** C1.  After [initialize] the store holds exactly one row, the seed user
    with username [bob], email [bob@mail.com] and password [bobpass],
    whatever rows it held before; the command ends normally. *)
Theorem initialize_seeds_bob (rows : list User) :
  exists bob : User,
    store (initialize rows) = [bob]
    /\ username bob = "bob" /\ email bob = "bob@mail.com"
    /\ password bob = "bobpass"
    /\ raised (initialize rows) = None.
Proof.
  rewrite initialize_eq. cbn [store raised].
  by exists (mkUser (Some 1) "bob" "bob@mail.com" "bobpass").
Qed.

(** C2.  When neither the username nor the email occurs in a row of the
    store, [create_user] followed by [get_user] on that username prints a
    record whose username, email and password are the ones given. *)
Theorem create_user_then_get_user (rows : list User) (name mail pass : string) :
  (forall r, r ∈ rows -> username r <> name /\ email r <> mail) ->
  exists u : User,
    username u = name /\ email u = mail /\ password u = pass
    /\ raised (create_user str name mail pass rows) = None
    /\ get_user native str name (store (create_user str name mail pass rows))
       = mkOutcome (store (create_user str name mail pass rows)) [str u] None.
Proof.
  intros Hfresh. exists (mkUser (Some (next_id rows)) name mail pass).
  rewrite create_user_eq.
  destruct (existsb _ rows) eqn:Hclash.
  - apply clash_found in Hclash as (r & Hin & Hc). cbn in Hc.
    destruct (Hfresh r Hin) as [Hn Hm]. by destruct Hc.
  - cbn [store raised username email password]. repeat split.
    rewrite get_user_eq, find_user_appended; [done| |done].
    intros r Hr. by apply Hfresh.
Qed.

(** C3.  When the username or the email already occurs in a row,
    [create_user] leaves the store as it was, prints the taken-field
    message and ends normally. *)
Theorem create_user_taken (rows : list User) (name mail pass : string) :
  (exists r, r ∈ rows /\ (username r = name \/ email r = mail)) ->
  create_user str name mail pass rows
  = mkOutcome rows ["Error: Username or email already taken!"] None.
Proof.
  intros Htaken. rewrite create_user_eq.
  destruct (existsb _ rows) eqn:Hclash; [done|].
  apply (proj2 (clash_found (mkUser None name mail pass) rows)) in Htaken.
  congruence.
Qed.

(** C6.  [change_email] on a username that no row carries writes nothing:
    the store afterwards is the store before, row for row, and the
    not-found message is printed. *)
Theorem change_email_unknown (rows : list User) (name new_email : string) :
  (forall r, r ∈ rows -> username r <> name) ->
  change_email native name new_email rows
  = mkOutcome rows
      ["Error: " +:+ name +:+ " not found! Unable to update email."] None.
Proof.
  intros Hno. by rewrite change_email_eq, find_user_none.
Qed.

(** C10.  The four commands that only read ([get_user], [get_all_users],
    [search_users], [list_paginated]) leave the store exactly as it was,
    for every argument and every store. *)
Theorem readers_keep_store (rows : list User) (name query : string)
    (limit_ offset_ : Z) :
  store (get_user native str name rows) = rows
  /\ store (get_all_users native str rows) = rows
  /\ store (search_users native str query rows) = rows
  /\ store (list_paginated native str limit_ offset_ rows) = rows.
Proof.
  rewrite get_user_eq, get_all_users_eq, search_users_eq, list_paginated_eq.
  repeat split.
  destruct (window native (Some limit_) (Some offset_) rows) as [[|u page]|e];
    reflexivity.
Qed.

(** C5.  On a store that holds a row with the given username,
    [delete_user] removes that row and no other, and [get_user] on that
    username then reports not-found. *)
Theorem delete_user_removes_one (rows : list User) (r : User) :
  wf_store rows -> r ∈ rows ->
  exists l1 l2 : list User,
    rows = l1 ++ r :: l2
    /\ delete_user native (username r) rows
       = mkOutcome (l1 ++ l2) ["Success: " +:+ username r +:+ " deleted"] None
    /\ get_user native str (username r) (l1 ++ l2)
       = mkOutcome (l1 ++ l2) ["Error: " +:+ username r +:+ " not found!"] None.
Proof.
  intros [_ Hid Hname _] Hin.
  destruct (list_elem_of_split _ _ Hin) as (l1 & l2 & ->).
  exists l1, l2. split; [done|]. split.
  - rewrite delete_user_eq, find_user_unique by done.
    rewrite sql_delete_split; [done|].
    intros x Hx. by apply (unique_column_others id l1 l2).
  - rewrite get_user_eq, find_user_none; [done|].
    intros x Hx. by apply (unique_column_others username l1 l2).
Qed.

(** C7.  On a store that holds a row with the given username, a
    [change_email] that succeeds replaces that row by the same row with the
    new email: its id, username and password are as before, and so is
    every other row. *)
Theorem change_email_touches_one_field (rows : list User) (r : User)
    (new_email : string) :
  wf_store rows -> r ∈ rows ->
  raised (change_email native (username r) new_email rows) = None ->
  exists (l1 l2 : list User) (r' : User),
    rows = l1 ++ r :: l2
    /\ store (change_email native (username r) new_email rows) = l1 ++ r' :: l2
    /\ email r' = new_email
    /\ id r' = id r /\ username r' = username r /\ password r' = password r.
Proof.
  intros [_ Hid Hname _] Hin Hok.
  destruct (list_elem_of_split _ _ Hin) as (l1 & l2 & ->).
  exists l1, l2, (set_email r new_email). split; [done|].
  split; [|done].
  rewrite change_email_eq, find_user_unique in Hok |- * by done.
  cbv zeta in Hok |- *.
  destruct (bool_decide_reflect (set_email r new_email = r)) as [Hsame|Hdiff].
  - cbn [store]. by rewrite Hsame.
  - unfold sql_update in Hok |- *.
    destruct (existsb _ _); [discriminate Hok|]. cbn [store].
    apply sql_update_split; [done|].
    intros x Hx. by apply (unique_column_others id l1 l2).
Qed.

(** C9.  When the row with the given username exists and a different row
    already holds the new email, [change_email] ends with [IntegrityError]:
    nothing is printed and nothing is written, where [create_user] on the
    same email catches the error and prints the taken-field message. *)
Theorem change_email_duplicate_raises (rows : list User) (r x : User)
    (new_email : string) :
  wf_store rows -> r ∈ rows -> x ∈ rows -> x <> r -> email x = new_email ->
  change_email native (username r) new_email rows
  = mkOutcome rows [] (Some IntegrityError)
  /\ forall name pass : string,
       create_user str name new_email pass rows
       = mkOutcome rows ["Error: Username or email already taken!"] None.
Proof.
  intros [_ _ Hname Hmail] Hr Hx Hxr Hnew. split.
  - rewrite change_email_eq, find_user_unique by done. cbv zeta.
    assert (email r <> new_email) as Hne.
    { intros Heq. apply Hxr.
      apply (unique_column_inj email rows); [done..|congruence]. }
    rewrite bool_decide_eq_false_2.
    2:{ intros Heq. apply Hne. by rewrite <- Heq. }
    unfold sql_update.
    replace (existsb (update_clashes r (set_email r new_email)) rows) with true;
      [done|].
    symmetry. apply existsb_exists. exists x. split; [by apply list_elem_of_In|].
    unfold update_clashes. cbn [username email set_email].
    apply orb_true_iff. right. apply andb_true_iff. split.
    + apply negb_true_iff. by apply String.eqb_neq.
    + by apply String.eqb_eq.
  - intros name pass. rewrite create_user_eq.
    replace (existsb (clashes (mkUser None name new_email pass)) rows) with true;
      [done|].
    symmetry. apply clash_found. exists x. split; [done|]. by right.
Qed.

(** C8, amended.  On a store of four rows, [list_paginated] with limit 2
    at offset 0 and at offset 2 prints two pages of two rows each that
    share no row and together are the four rows; in general, for a limit
    and an offset that are not negative and fit a signed 64-bit integer,
    the page is what remains of the rows after skipping [offset] of them,
    cut to at most [limit] rows. *)
Theorem list_paginated_pages :
  (forall rows : list User,
     length rows = 4%nat -> wf_store rows ->
     exists page1 page2 : list User,
       list_paginated native str 2 0 rows
       = mkOutcome rows (page_header 2 0 :: map str page1) None
       /\ list_paginated native str 2 2 rows
          = mkOutcome rows (page_header 2 2 :: map str page2) None
       /\ length page1 = 2%nat /\ length page2 = 2%nat
       /\ (forall u, u ∈ page1 -> u ∉ page2)
       /\ page1 ++ page2 = rows)
  /\ (forall (limit_ offset_ : Z) (rows : list User),
        0 <= limit_ < 2 ^ 63 -> 0 <= offset_ < 2 ^ 63 ->
        let page := take (Z.to_nat limit_) (drop (Z.to_nat offset_) rows) in
        Z.of_nat (length page) <= limit_
        /\ list_paginated native str limit_ offset_ rows
           = mkOutcome rows
               (match page with
                | [] => ["No users found in this range."]
                | _ :: _ => page_header limit_ offset_ :: map str page
                end) None).
Proof.
  split.
  - intros rows Hlen [_ Hid _ _].
    destruct rows as [|a [|b [|c [|d [|e rest]]]]]; try discriminate Hlen.
    exists [a; b], [c; d]. rewrite !list_paginated_eq.
    repeat split.
    apply NoDup_fmap_1 in Hid.
    change [a; b; c; d] with ([a; b] ++ [c; d]) in Hid.
    apply NoDup_app in Hid as (_ & Hdisjoint & _). exact Hdisjoint.
  - intros limit_ offset_ rows Hlimit Hoffset page. split.
    + subst page. rewrite length_take. lia.
    + rewrite list_paginated_eq, window_nonneg by done.
      fold page. by destruct page.
Qed.

(** C4, at a query with a wildcard.  [search_users "b_b"] on a store whose
    only row is the seed user prints that row, although [b_b] occurs
    neither in [bob] nor in [bob@mail.com]: the [_] of the query is read
    as "any one character". *)
Theorem search_users_wildcard :
  let bob := mkUser (Some 1) "bob" "bob@mail.com" "bobpass" in
  search_users native str "b_b" [bob] = mkOutcome [bob] [str bob] None
  /\ ~ Like.substring "b_b" (username bob)
  /\ ~ Like.substring "b_b" (email bob).
Proof.
  cbv zeta. rewrite search_users_eq. repeat split.
  - rewrite <- occurs_iff. by vm_compute.
  - rewrite <- occurs_iff. by vm_compute.
Qed.

(** On a query without wildcards [search_users] does select by substring,
    up to the case of ASCII letters: the rows printed are those whose
    username or email contains the query. *)
Lemma search_plain (query : string) (rows : list User) (u : User) :
  Like.plain query = true ->
  u ∈ search query rows <->
  u ∈ rows /\ (Like.substring (Like.lower query) (Like.lower (username u))
               \/ Like.substring (Like.lower query) (Like.lower (email u))).
Proof.
  intros Hplain. unfold search.
  rewrite list_elem_of_In, filter_In, <- list_elem_of_In.
  rewrite !contains_plain, orb_true_iff, !occurs_iff by done. reflexivity.
Qed.

End Claims.

(** *** The claims on the four users *)

Lemma create_user_then_get_user_witness :
  (forall r, r ∈ [bob] -> username r <> "rick" /\ email r <> "rick@mail.com")
  /\ exists u : User,
       username u = "rick" /\ email u = "rick@mail.com"
       /\ password u = "rickpass"
       /\ raised (create_user show "rick" "rick@mail.com" "rickpass" [bob]) = None
       /\ get_user lenient show "rick"
            (store (create_user show "rick" "rick@mail.com" "rickpass" [bob]))
          = mkOutcome
              (store (create_user show "rick" "rick@mail.com" "rickpass" [bob]))
              [show u] None.
Proof.
  assert (forall r, r ∈ [bob] -> username r <> "rick" /\ email r <> "rick@mail.com")
    as Hfresh by (intros r ->%list_elem_of_singleton; by split).
  split; [exact Hfresh|].
  exact (create_user_then_get_user lenient show [bob]
           "rick" "rick@mail.com" "rickpass" Hfresh).
Defined.

Lemma create_user_taken_witness :
  (exists r, r ∈ [bob] /\ (username r = "bob" \/ email r = "x@x.com"))
  /\ create_user show "bob" "x@x.com" "pw" [bob]
     = mkOutcome [bob] ["Error: Username or email already taken!"] None.
Proof.
  assert (exists r, r ∈ [bob] /\ (username r = "bob" \/ email r = "x@x.com"))
    as Htaken by (exists bob; split; [apply list_elem_of_here | by left]).
  split; [exact Htaken|].
  exact (create_user_taken show [bob] "bob" "x@x.com" "pw" Htaken).
Defined.

Lemma delete_user_removes_one_witness :
  wf_store two_users /\ bob ∈ two_users
  /\ exists l1 l2 : list User,
       two_users = l1 ++ bob :: l2
       /\ delete_user lenient "bob" two_users
          = mkOutcome (l1 ++ l2) ["Success: bob deleted"] None
       /\ get_user lenient show "bob" (l1 ++ l2)
          = mkOutcome (l1 ++ l2) ["Error: bob not found!"] None.
Proof.
  assert (wf_store two_users) as Hwf
    by (apply (bool_decide_unpack _); vm_compute; exact I).
  assert (bob ∈ two_users) as Hin by apply list_elem_of_here.
  split; [exact Hwf|]. split; [exact Hin|].
  exact (delete_user_removes_one lenient show two_users bob Hwf Hin).
Defined.

Lemma change_email_unknown_witness :
  (forall r, r ∈ [bob] -> username r <> "rick")
  /\ change_email lenient "rick" "rick@mail.com" [bob]
     = mkOutcome [bob]
         ["Error: rick not found! Unable to update email."] None.
Proof.
  assert (forall r, r ∈ [bob] -> username r <> "rick")
    as Hno by (by intros r ->%list_elem_of_singleton).
  split; [exact Hno|].
  exact (change_email_unknown lenient [bob] "rick" "rick@mail.com" Hno).
Defined.

Lemma change_email_touches_one_field_witness :
  wf_store two_users /\ rick ∈ two_users
  /\ raised (change_email lenient "rick" "r@mail.com" two_users) = None
  /\ exists (l1 l2 : list User) (r' : User),
       two_users = l1 ++ rick :: l2
       /\ store (change_email lenient "rick" "r@mail.com" two_users)
          = l1 ++ r' :: l2
       /\ email r' = "r@mail.com"
       /\ id r' = id rick /\ username r' = username rick
       /\ password r' = password rick.
Proof.
  assert (wf_store two_users) as Hwf
    by (apply (bool_decide_unpack _); vm_compute; exact I).
  assert (rick ∈ two_users) as Hin
    by (apply list_elem_of_further, list_elem_of_here).
  assert (raised (change_email lenient "rick" "r@mail.com" two_users) = None)
    as Hok by reflexivity.
  split; [exact Hwf|]. split; [exact Hin|]. split; [exact Hok|].
  exact (change_email_touches_one_field lenient two_users rick "r@mail.com"
           Hwf Hin Hok).
Defined.

Lemma list_paginated_pages_witness :
  (length four_users = 4%nat /\ wf_store four_users
   /\ exists page1 page2 : list User,
        list_paginated lenient show 2 0 four_users
        = mkOutcome four_users (page_header 2 0 :: map show page1) None
        /\ list_paginated lenient show 2 2 four_users
           = mkOutcome four_users (page_header 2 2 :: map show page2) None
        /\ length page1 = 2%nat /\ length page2 = 2%nat
        /\ (forall u, u ∈ page1 -> u ∉ page2)
        /\ page1 ++ page2 = four_users)
  /\ (0 <= 2 < 2 ^ 63 /\ 0 <= 1 < 2 ^ 63
      /\ let page := take (Z.to_nat 2) (drop (Z.to_nat 1) four_users) in
         Z.of_nat (length page) <= 2
         /\ list_paginated lenient show 2 1 four_users
            = mkOutcome four_users
                (match page with
                 | [] => ["No users found in this range."]
                 | _ :: _ => page_header 2 1 :: map show page
                 end) None).
Proof.
  assert (wf_store four_users) as Hwf
    by (apply (bool_decide_unpack _); vm_compute; exact I).
  assert (0 <= 2 < 2 ^ 63) as H2 by lia.
  assert (0 <= 1 < 2 ^ 63) as H1 by lia.
  split.
  - split; [reflexivity|]. split; [exact Hwf|].
    exact (proj1 (list_paginated_pages lenient show) four_users eq_refl Hwf).
  - split; [exact H2|]. split; [exact H1|].
    exact (proj2 (list_paginated_pages lenient show) 2 1 four_users H2 H1).
Defined.

(** C8 as it was stated, for every limit and offset, fails.  With limit -1
    at offset 1 an engine that reads a negative limit as "no limit" returns
    the three remaining rows, more than the limit; with limit 2^63 the
    value cannot be handed to the engine, and the command ends with
    [OverflowError] and no page at all. *)
Lemma list_paginated_pages_counterexample :
  list_paginated lenient show (-1) 1 four_users
  = mkOutcome four_users
      (page_header (-1) 1 :: map show [rick; sally; pam]) None
  /\ ~ (Z.of_nat (length [rick; sally; pam]) <= -1)
  /\ list_paginated lenient show (2 ^ 63) 0 four_users
     = mkOutcome four_users [] (Some OverflowError).
Proof.
  split; [reflexivity|]. split; [|reflexivity]. cbn. lia.
Qed.

Lemma change_email_duplicate_raises_witness :
  wf_store two_users /\ rick ∈ two_users /\ bob ∈ two_users /\ bob <> rick
  /\ email bob = "bob@mail.com"
  /\ change_email lenient "rick" "bob@mail.com" two_users
     = mkOutcome two_users [] (Some IntegrityError)
  /\ forall name pass : string,
       create_user show name "bob@mail.com" pass two_users
       = mkOutcome two_users ["Error: Username or email already taken!"] None.
Proof.
  assert (wf_store two_users) as Hwf
    by (apply (bool_decide_unpack _); vm_compute; exact I).
  assert (rick ∈ two_users) as Hrick
    by (apply list_elem_of_further, list_elem_of_here).
  assert (bob ∈ two_users) as Hbob by apply list_elem_of_here.
  assert (bob <> rick) as Hne by discriminate.
  assert (email bob = "bob@mail.com") as Hmail by reflexivity.
  split; [exact Hwf|]. split; [exact Hrick|]. split; [exact Hbob|].
  split; [exact Hne|]. split; [exact Hmail|].
  exact (change_email_duplicate_raises lenient show two_users rick bob
           "bob@mail.com" Hwf Hrick Hbob Hne Hmail).
Defined.


(* ===================================================================== *)
(** ** Further properties of the commands                                 *)
(* ===================================================================== *)

Lemma find_user_none_inv (name : string) (rows : list User) (r : User) :
  find_user name rows = None -> r ∈ rows -> username r <> name.
Proof.
  unfold find_user. intros Hnone Hin Heq.
  assert (In r (List.filter (fun u => String.eqb (username u) name) rows)) as Hsel.
  { apply filter_In. split; [by apply list_elem_of_In|]. by apply String.eqb_eq. }
  destruct (List.filter _ rows); [done | discriminate Hnone].
Qed.

Lemma sql_delete_appended (u : User) (rows : list User) :
  (forall r, r ∈ rows -> id r <> id u) -> sql_delete u (rows ++ [u]) = rows.
Proof.
  intros Hfresh.
  pose proof (sql_delete_split rows [] u) as Hsplit.
  rewrite app_nil_r in Hsplit. by apply Hsplit.
Qed.

Section Lookups_and_writes.

Variable native : option Z -> option Z -> list User -> Result (list User).
Variable str : User -> string.

(** X1.  [get_all_users] prints one line per row, in storage order, and
    the line [No users found] exactly when the table is empty; it ends
    normally and leaves the table alone. *)
Theorem get_all_users_prints_rows (rows : list User) :
  (rows = [] -> output (get_all_users native str rows) = ["No users found"])
  /\ (rows <> [] -> output (get_all_users native str rows) = map str rows)
  /\ raised (get_all_users native str rows) = None.
Proof.
  rewrite get_all_users_eq. cbn [output raised].
  split; [by intros ->|]. split; [|done]. by destruct rows.
Qed.

(** X2.  [get_user] prints the first row, in storage order, that has
    exactly the given username: when no row before [r] has the username of
    [r], the command prints [r] and nothing else, whatever rows follow. *)
Theorem get_user_prints_first (l1 l2 : list User) (r : User) :
  (forall x, x ∈ l1 -> username x <> username r) ->
  get_user native str (username r) (l1 ++ r :: l2)
  = mkOutcome (l1 ++ r :: l2) [str r] None.
Proof.
  intros Hbefore. rewrite get_user_eq. unfold find_user.
  rewrite List.filter_app.
  pose proof (find_user_none (username r) l1 Hbefore) as Hnone.
  unfold find_user in Hnone.
  destruct (List.filter _ l1) as [|y ys]; [|discriminate Hnone].
  cbn [app List.filter]. by rewrite String.eqb_refl.
Qed.

(** X3.  The lookup of [get_user] is by equality: when no row has exactly
    the given username, whatever the usernames contain, it prints the
    not-found line, ends normally and leaves the table alone. *)
Theorem get_user_unknown (rows : list User) (name : string) :
  (forall r, r ∈ rows -> username r <> name) ->
  get_user native str name rows
  = mkOutcome rows ["Error: " +:+ name +:+ " not found!"] None.
Proof. intros Hno. by rewrite get_user_eq, find_user_none. Qed.

(** X4.  [delete_user] on a username that no row carries deletes nothing:
    the table is as before, the not-found line is printed and the command
    ends normally. *)
Theorem delete_user_unknown (rows : list User) (name : string) :
  (forall r, r ∈ rows -> username r <> name) ->
  delete_user native name rows
  = mkOutcome rows
      ["Error: " +:+ name +:+ " not found! Unable to delete user."] None.
Proof. intros Hno. by rewrite delete_user_eq, find_user_none. Qed.

(** X5.  With a username and an email that no row uses, [create_user] adds
    exactly one row, after all the others and under an id no other row has;
    the rows that were there are untouched, and the new record is printed
    after [Created:]. *)
Theorem create_user_appends (rows : list User) (name mail pass : string) :
  (forall r, r ∈ rows -> username r <> name /\ email r <> mail) ->
  exists i : Z,
    (forall r, r ∈ rows -> id r <> Some i)
    /\ create_user str name mail pass rows
       = mkOutcome (rows ++ [mkUser (Some i) name mail pass])
           ["Created: " +:+ str (mkUser (Some i) name mail pass)] None.
Proof.
  intros Hfresh. exists (next_id rows). split.
  - intros r Hr. by apply next_id_fresh.
  - rewrite create_user_eq.
    destruct (existsb _ rows) eqn:Hclash; [|done].
    apply clash_found in Hclash as (r & Hin & Hc). cbn in Hc.
    destruct (Hfresh r Hin) as [Hn Hm]. by destruct Hc.
Qed.

(** X6.  Creating a user under an unused username and email and then
    deleting that username gives back the table as it was. *)
Theorem create_user_then_delete_user (rows : list User) (name mail pass : string) :
  (forall r, r ∈ rows -> username r <> name /\ email r <> mail) ->
  store (delete_user native name (store (create_user str name mail pass rows)))
  = rows.
Proof.
  intros Hfresh. rewrite create_user_eq.
  destruct (existsb _ rows) eqn:Hclash.
  - apply clash_found in Hclash as (r & Hin & Hc). cbn in Hc.
    destruct (Hfresh r Hin) as [Hn Hm]. by destruct Hc.
  - cbn [store]. rewrite delete_user_eq, find_user_appended; [|by intros r Hr; apply Hfresh|done].
    cbn [store]. apply sql_delete_appended.
    intros r Hr. cbn [id]. by apply next_id_fresh.
Qed.

(** X7.  Running [create_user] a second time with the same arguments never
    adds a second row: whatever the first run did, the second reports the
    taken-field error and leaves the table as the first run left it. *)
Theorem create_user_twice (rows : list User) (name mail pass : string) :
  create_user str name mail pass (store (create_user str name mail pass rows))
  = mkOutcome (store (create_user str name mail pass rows))
      ["Error: Username or email already taken!"] None.
Proof.
  rewrite (create_user_eq str name mail pass rows).
  destruct (existsb _ rows) eqn:Hclash; cbn [store].
  - by rewrite create_user_eq, Hclash.
  - rewrite create_user_eq.
    replace (existsb (clashes (mkUser None name mail pass))
               (rows ++ [mkUser (Some (next_id rows)) name mail pass]))
      with true; [done|].
    symmetry. apply clash_found.
    exists (mkUser (Some (next_id rows)) name mail pass). split; [|by left].
    rewrite elem_of_app, list_elem_of_singleton. by right.
Qed.

End Lookups_and_writes.

(** *** Changing an email *)

Lemma update_free (rows : list User) (r : User) (new_email : string) :
  r ∈ rows -> (forall x, x ∈ rows -> email x = new_email -> x = r) ->
  set_email r new_email <> r ->
  existsb (update_clashes r (set_email r new_email)) rows = false.
Proof.
  intros Hin Hfree Hdiff.
  destruct (existsb _ rows) eqn:Hclash; [|done]. exfalso.
  apply existsb_exists in Hclash as (x & Hx & Hc).
  unfold update_clashes in Hc. cbn [username email set_email] in Hc.
  rewrite String.eqb_refl in Hc. cbn [negb andb orb] in Hc.
  apply andb_true_iff in Hc as [Hne Heq].
  apply negb_true_iff, String.eqb_neq in Hne. apply String.eqb_eq in Heq.
  apply Hne. by rewrite (Hfree x (proj2 (list_elem_of_In _ _) Hx) Heq) in Heq.
Qed.

Lemma change_email_store native (l1 l2 : list User) (r : User)
    (new_email : string) :
  wf_store (l1 ++ r :: l2) ->
  raised (change_email native (username r) new_email (l1 ++ r :: l2)) = None ->
  store (change_email native (username r) new_email (l1 ++ r :: l2))
  = l1 ++ set_email r new_email :: l2.
Proof.
  intros [_ Hid Hname _] Hok.
  assert (r ∈ l1 ++ r :: l2) as Hin by (rewrite elem_of_app, elem_of_cons; tauto).
  rewrite change_email_eq, find_user_unique in Hok |- * by done.
  cbv zeta in Hok |- *.
  destruct (bool_decide_reflect (set_email r new_email = r)) as [Hsame|Hdiff].
  - cbn [store]. by rewrite Hsame.
  - unfold sql_update in Hok |- *.
    destruct (existsb _ _); [discriminate Hok|]. cbn [store].
    apply sql_update_split; [done|].
    intros x Hx. by apply (unique_column_others id l1 l2).
Qed.

Section Email_changes.

Variable native : option Z -> option Z -> list User -> Result (list User).
Variable str : User -> string.

(** X8.  On a store under its constraints, [change_email] for an existing
    username succeeds whenever no other row holds the new email (the row's
    own current email included): it ends normally and prints the success
    line with the username and the new email. *)
Theorem change_email_free_succeeds (rows : list User) (r : User)
    (new_email : string) :
  wf_store rows -> r ∈ rows ->
  (forall x, x ∈ rows -> email x = new_email -> x = r) ->
  raised (change_email native (username r) new_email rows) = None
  /\ output (change_email native (username r) new_email rows)
     = ["Success: Updated " +:+ username r +:+ "'s email to " +:+ new_email].
Proof.
  intros [_ _ Hname _] Hin Hfree.
  rewrite change_email_eq, find_user_unique by done. cbv zeta.
  destruct (bool_decide_reflect (set_email r new_email = r)) as [Hsame|Hdiff];
    [done|].
  unfold sql_update. by rewrite update_free.
Qed.

(** X9.  After a [change_email] that succeeded, [get_user] on the same
    username prints the record with the new email and with the id,
    username and password it had. *)
Theorem change_email_then_get_user (rows : list User) (r : User)
    (new_email : string) :
  wf_store rows -> r ∈ rows ->
  raised (change_email native (username r) new_email rows) = None ->
  get_user native str (username r)
    (store (change_email native (username r) new_email rows))
  = mkOutcome (store (change_email native (username r) new_email rows))
      [str (mkUser (id r) (username r) new_email (password r))] None.
Proof.
  intros Hwf Hin Hok.
  destruct (list_elem_of_split _ _ Hin) as (l1 & l2 & ->).
  rewrite change_email_store by done.
  rewrite get_user_eq.
  change (username r) with (username (set_email r new_email)) at 1.
  rewrite find_user_unique; [done| |].
  - apply (unique_column_replace username l1 l2 r); [by destruct Hwf | by left].
  - rewrite elem_of_app, elem_of_cons. tauto.
Qed.

End Email_changes.

(** *** Searching *)

Section Search_facts.

Import Like.

Lemma like_literal (q p t : string) :
  like p t = true -> like (q +:+ p) (q +:+ t) = true.
Proof.
  intros Hpt. induction q as [|c q IH]; [done|].
  rewrite !append_cons.
  destruct (Ascii.eqb_spec c "%") as [->|Hpercent].
  - rewrite like_any_run. apply orb_true_iff. right.
    rewrite like_any_run, IH. reflexivity.
  - cbn [like]. rewrite (proj2 (Ascii.eqb_neq _ _) Hpercent).
    destruct (Ascii.eqb c "_"); [done|].
    unfold same_char. by rewrite Ascii.eqb_refl, IH.
Qed.

Lemma like_skip (pre p t : string) :
  like (String "%" p) t = true -> like (String "%" p) (pre +:+ t) = true.
Proof.
  intros Hpt. induction pre as [|d pre IH]; [done|].
  rewrite append_cons, like_any_run, IH. apply orb_true_r.
Qed.

(** Whatever the query, a column in which it occurs is matched. *)
Lemma contains_substring (column q : string) :
  substring q column -> contains column q = true.
Proof.
  intros (pre & post & ->). unfold contains. rewrite append_cons, append_nil.
  apply like_skip. rewrite like_any_run.
  rewrite (like_literal q "%" post (like_percent post)). reflexivity.
Qed.

Lemma contains_empty (column : string) : contains column EmptyString = true.
Proof. apply contains_substring. by exists EmptyString, column. Qed.

Variable native : option Z -> option Z -> list User -> Result (list User).
Variable str : User -> string.



(** X12.  The empty query matches everything: [search_users] with it prints
    every row of the table. *)
Theorem search_users_empty_query (rows : list User) :
  rows <> [] ->
  search_users native str EmptyString rows = mkOutcome rows (map str rows) None.
Proof.
  intros Hrows. rewrite search_users_eq.
  assert (search EmptyString rows = rows) as ->.
  { unfold search. induction rows as [|x rest IH]; [done|].
    cbn [List.filter]. rewrite contains_empty. cbn [orb].
    destruct rest as [|y rest]; [done|]. by rewrite IH. }
  by destruct rows.
Qed.

End Search_facts.

(** *** Paging *)

Section Paging.

Variable native : option Z -> option Z -> list User -> Result (list User).
Variable str : User -> string.

(** X13.  For a limit and an offset that are not negative and fit a signed
    64-bit integer, a page that starts at or after the end of the table,
    or a limit of zero, gives the line [No users found in this range.];
    the command ends normally. *)
Theorem list_paginated_out_of_range (limit_ offset_ : Z) (rows : list User) :
  0 <= limit_ < 2 ^ 63 -> 0 <= offset_ < 2 ^ 63 ->
  limit_ = 0 \/ Z.of_nat (length rows) <= offset_ ->
  list_paginated native str limit_ offset_ rows
  = mkOutcome rows ["No users found in this range."] None.
Proof.
  intros Hlimit Hoffset Hout.
  rewrite list_paginated_eq, window_nonneg by done.
  replace (take (Z.to_nat limit_) (drop (Z.to_nat offset_) rows)) with (@nil User);
    [done|].
  destruct Hout as [->|Hpast]; [done|].
  rewrite drop_ge by lia. by rewrite take_nil.
Qed.

(** X14.  Pages tile the table.  For values that are not negative and fit
    a signed 64-bit integer, what [list_paginated] prints with limit [l] at
    offset [o] and with limit [l'] at offset [o + l] are two pages whose
    concatenation is the page it prints with limit [l + l'] at offset [o]:
    no row is skipped and none comes twice. *)
Theorem pages_tile (o l l' : Z) (rows : list User) :
  0 <= o -> 0 <= l -> 0 <= l' -> o + l < 2 ^ 63 -> l + l' < 2 ^ 63 ->
  exists page1 page2 : list User,
    list_paginated native str l o rows
    = mkOutcome rows (page_lines str l o page1) None
    /\ list_paginated native str l' (o + l) rows
       = mkOutcome rows (page_lines str l' (o + l) page2) None
    /\ list_paginated native str (l + l') o rows
       = mkOutcome rows (page_lines str (l + l') o (page1 ++ page2)) None.
Proof.
  intros Ho Hl Hl' Hol Hll.
  exists (take (Z.to_nat l) (drop (Z.to_nat o) rows)),
         (take (Z.to_nat l') (drop (Z.to_nat (o + l)) rows)).
  rewrite !list_paginated_eq, !window_nonneg by lia.
  rewrite (Z2Nat.inj_add o l), (Z2Nat.inj_add l l') by lia.
  rewrite <- drop_drop, take_take_drop.
  unfold page_lines, page_header.
  repeat split; by destruct (take _ _).
Qed.

(** X15.  With offset 0 and a limit that is at least the number of rows and
    fits a signed 64-bit integer, [list_paginated] prints its header and
    then exactly the lines that [get_all_users] prints. *)
Theorem list_paginated_everything (limit_ : Z) (rows : list User) :
  rows <> [] -> Z.of_nat (length rows) <= limit_ < 2 ^ 63 ->
  output (list_paginated native str limit_ 0 rows)
  = page_header limit_ 0 :: output (get_all_users native str rows).
Proof.
  intros Hrows Hlimit.
  rewrite list_paginated_eq, get_all_users_eq, window_nonneg by lia.
  cbn [Z.to_nat]. rewrite drop_0, take_ge by lia.
  by destruct rows.
Qed.

(** *** Exceptions *)

(** X17.  A command that ends with an exception has written nothing: the
    table is exactly as it was before the command. *)
Theorem cli_raise_keeps_store (c : Command) (rows : list User) (e : Exn) :
  raised (cli native str c rows) = Some e ->
  store (cli native str c rows) = rows.
Proof.
  destruct c as [|u| |u m|u m p|u|q|l o]; cbn [cli].
  - by rewrite initialize_eq.
  - by rewrite get_user_eq.
  - by rewrite get_all_users_eq.
  - rewrite change_email_eq.
    destruct (find_user u rows) as [r|]; [|done]. cbv zeta.
    destruct (bool_decide _); [done|].
    by destruct (sql_update _ _ rows).
  - rewrite create_user_eq. by destruct (existsb _ rows).
  - rewrite delete_user_eq. by destruct (find_user u rows).
  - by rewrite search_users_eq.
  - rewrite list_paginated_eq.
    by destruct (window native _ _ rows) as [[|x page]|e'].
Qed.

End Paging.

(** *** Changing an email and changing it back *)

Lemma change_email_free_ok native (rows : list User) (r : User)
    (new_email : string) :
  wf_store rows -> r ∈ rows ->
  (forall x, x ∈ rows -> email x = new_email -> x = r) ->
  raised (change_email native (username r) new_email rows) = None.
Proof.
  intros [_ _ Hname _] Hin Hfree.
  rewrite change_email_eq, find_user_unique by done. cbv zeta.
  destruct (bool_decide_reflect (set_email r new_email = r)) as [Hsame|Hdiff];
    [done|].
  unfold sql_update. by rewrite update_free.
Qed.

Section Round_trip.

Variable native : option Z -> option Z -> list User -> Result (list User).

(** X18.  On a store under its constraints, changing the email of an
    existing user to an address nobody holds and then changing it back to
    the old address gives back the table as it was. *)
Theorem change_email_and_back (rows : list User) (r : User) (new_email : string) :
  wf_store rows -> r ∈ rows ->
  (forall x, x ∈ rows -> email x <> new_email) ->
  store (change_email native (username r) (email r)
           (store (change_email native (username r) new_email rows)))
  = rows.
Proof.
  intros Hwf Hin Hfree.
  assert (raised (change_email native (username r) new_email rows) = None) as Hok.
  { apply change_email_free_ok; [done..|]. intros x Hx Hmail.
    by destruct (Hfree x Hx). }
  pose proof (wf_store_change_email native rows (username r) new_email Hwf) as Hwf'.
  destruct (list_elem_of_split _ _ Hin) as (l1 & l2 & ->).
  rewrite change_email_store in Hwf' |- * by done.
  change (username r) with (username (set_email r new_email)).
  assert (set_email (set_email r new_email) (email r) = r) as Hback by by destruct r.
  rewrite change_email_store; [by rewrite Hback|done|].
  apply change_email_free_ok; [done| |].
  - rewrite elem_of_app, elem_of_cons. tauto.
  - intros x Hx Hmail.
    apply elem_of_app in Hx as [Hx|Hx];
      [|apply elem_of_cons in Hx as [->|Hx]; [done|]]; exfalso.
    + apply (unique_column_others email l1 l2 r x); [by destruct Hwf| |done].
      rewrite elem_of_app. by left.
    + apply (unique_column_others email l1 l2 r x); [by destruct Hwf| |done].
      rewrite elem_of_app. by right.
Qed.

End Round_trip.

(** *** The further properties on the four users *)

Lemma get_all_users_prints_rows_witness :
  output (get_all_users lenient show []) = ["No users found"]
  /\ output (get_all_users lenient show two_users) = map show two_users.
Proof.
  assert (two_users <> []) as Hrows by discriminate.
  split.
  - exact (proj1 (get_all_users_prints_rows lenient show []) eq_refl).
  - exact (proj1 (proj2 (get_all_users_prints_rows lenient show two_users)) Hrows).
Defined.

Lemma get_user_prints_first_witness :
  (forall x, x ∈ [bob] -> username x <> username rick)
  /\ get_user lenient show (username rick) ([bob] ++ rick :: [sally; pam])
     = mkOutcome ([bob] ++ rick :: [sally; pam]) [show rick] None.
Proof.
  assert (forall x, x ∈ [bob] -> username x <> username rick) as Hbefore.
  { apply (proj1 (Forall_forall _ _)). by repeat constructor. }
  split; [exact Hbefore|].
  exact (get_user_prints_first lenient show [bob] [sally; pam] rick Hbefore).
Defined.

Lemma get_user_unknown_witness :
  (forall r, r ∈ two_users -> username r <> "bo")
  /\ get_user lenient show "bo" two_users
     = mkOutcome two_users ["Error: bo not found!"] None.
Proof.
  assert (forall r, r ∈ two_users -> username r <> "bo") as Hno.
  { apply Forall_forall. by repeat constructor. }
  split; [exact Hno|].
  exact (get_user_unknown lenient show two_users "bo" Hno).
Defined.

Lemma delete_user_unknown_witness :
  (forall r, r ∈ two_users -> username r <> "sally")
  /\ delete_user lenient "sally" two_users
     = mkOutcome two_users
         ["Error: sally not found! Unable to delete user."] None.
Proof.
  assert (forall r, r ∈ two_users -> username r <> "sally") as Hno.
  { apply Forall_forall. by repeat constructor. }
  split; [exact Hno|].
  exact (delete_user_unknown lenient two_users "sally" Hno).
Defined.

Lemma create_user_appends_witness :
  (forall r, r ∈ two_users ->
     username r <> "sally" /\ email r <> "sally@mail.com")
  /\ exists i : Z,
       (forall r, r ∈ two_users -> id r <> Some i)
       /\ create_user show "sally" "sally@mail.com" "sallypass" two_users
          = mkOutcome
              (two_users ++ [mkUser (Some i) "sally" "sally@mail.com" "sallypass"])
              ["Created: "
               +:+ show (mkUser (Some i) "sally" "sally@mail.com" "sallypass")]
              None.
Proof.
  assert (forall r, r ∈ two_users ->
            username r <> "sally" /\ email r <> "sally@mail.com") as Hfresh.
  { apply Forall_forall. by repeat constructor. }
  split; [exact Hfresh|].
  exact (create_user_appends show two_users
           "sally" "sally@mail.com" "sallypass" Hfresh).
Defined.

Lemma create_user_then_delete_user_witness :
  (forall r, r ∈ two_users ->
     username r <> "sally" /\ email r <> "sally@mail.com")
  /\ store (delete_user lenient "sally"
             (store (create_user show "sally" "sally@mail.com" "sallypass"
                       two_users)))
     = two_users.
Proof.
  assert (forall r, r ∈ two_users ->
            username r <> "sally" /\ email r <> "sally@mail.com") as Hfresh.
  { apply (proj1 (Forall_forall _ _)). by repeat constructor. }
  split; [exact Hfresh|].
  exact (create_user_then_delete_user lenient show two_users
           "sally" "sally@mail.com" "sallypass" Hfresh).
Defined.

Lemma change_email_free_succeeds_witness :
  wf_store two_users /\ rick ∈ two_users
  /\ (forall x, x ∈ two_users -> email x = "r@mail.com" -> x = rick)
  /\ raised (change_email lenient "rick" "r@mail.com" two_users) = None
  /\ output (change_email lenient "rick" "r@mail.com" two_users)
     = ["Success: Updated rick's email to r@mail.com"].
Proof.
  assert (wf_store two_users) as Hwf
    by (apply (bool_decide_unpack _); vm_compute; exact I).
  assert (rick ∈ two_users) as Hin
    by (apply list_elem_of_further, list_elem_of_here).
  assert (forall x, x ∈ two_users -> email x = "r@mail.com" -> x = rick) as Hfree.
  { intros x Hx. repeat (apply elem_of_cons in Hx as [->|Hx]);
      [discriminate | done | by apply elem_of_nil in Hx]. }
  split; [exact Hwf|]. split; [exact Hin|]. split; [exact Hfree|].
  exact (change_email_free_succeeds lenient two_users rick "r@mail.com"
           Hwf Hin Hfree).
Defined.

Lemma change_email_then_get_user_witness :
  wf_store two_users /\ rick ∈ two_users
  /\ raised (change_email lenient "rick" "r@mail.com" two_users) = None
  /\ get_user lenient show "rick"
       (store (change_email lenient "rick" "r@mail.com" two_users))
     = mkOutcome (store (change_email lenient "rick" "r@mail.com" two_users))
         [show (mkUser (Some 2) "rick" "r@mail.com" "rickpass")] None.
Proof.
  assert (wf_store two_users) as Hwf
    by (apply (bool_decide_unpack _); vm_compute; exact I).
  assert (rick ∈ two_users) as Hin
    by (apply list_elem_of_further, list_elem_of_here).
  assert (raised (change_email lenient "rick" "r@mail.com" two_users) = None)
    as Hok by reflexivity.
  split; [exact Hwf|]. split; [exact Hin|]. split; [exact Hok|].
  exact (change_email_then_get_user lenient show two_users rick "r@mail.com"
           Hwf Hin Hok).
Defined.



Lemma search_users_empty_query_witness :
  two_users <> []
  /\ search_users lenient show EmptyString two_users
     = mkOutcome two_users (map show two_users) None.
Proof.
  assert (two_users <> []) as Hrows by discriminate.
  split; [exact Hrows|].
  exact (search_users_empty_query lenient show two_users Hrows).
Defined.

Lemma list_paginated_out_of_range_witness :
  0 <= 5 < 2 ^ 63 /\ 0 <= 4 < 2 ^ 63
  /\ (5 = 0 \/ Z.of_nat (length four_users) <= 4)
  /\ list_paginated lenient show 5 4 four_users
     = mkOutcome four_users ["No users found in this range."] None.
Proof.
  assert (0 <= 5 < 2 ^ 63) as Hlimit by lia.
  assert (0 <= 4 < 2 ^ 63) as Hoffset by lia.
  assert (5 = 0 \/ Z.of_nat (length four_users) <= 4) as Hout
    by (right; cbn; lia).
  split; [exact Hlimit|]. split; [exact Hoffset|]. split; [exact Hout|].
  exact (list_paginated_out_of_range lenient show 5 4 four_users
           Hlimit Hoffset Hout).
Defined.

Lemma pages_tile_witness :
  0 <= 1 /\ 0 <= 1 /\ 0 <= 2 /\ 1 + 1 < 2 ^ 63 /\ 1 + 2 < 2 ^ 63
  /\ exists page1 page2 : list User,
       list_paginated lenient show 1 1 four_users
       = mkOutcome four_users (page_lines show 1 1 page1) None
       /\ list_paginated lenient show 2 (1 + 1) four_users
          = mkOutcome four_users (page_lines show 2 (1 + 1) page2) None
       /\ list_paginated lenient show (1 + 2) 1 four_users
          = mkOutcome four_users (page_lines show (1 + 2) 1 (page1 ++ page2)) None.
Proof.
  assert (0 <= 1) as H1 by lia.
  assert (0 <= 2) as H2 by lia.
  assert (1 + 1 < 2 ^ 63) as H11 by lia.
  assert (1 + 2 < 2 ^ 63) as H12 by lia.
  split; [exact H1|]. split; [exact H1|]. split; [exact H2|].
  split; [exact H11|]. split; [exact H12|].
  exact (pages_tile lenient show 1 1 2 four_users H1 H1 H2 H11 H12).
Defined.

Lemma list_paginated_everything_witness :
  four_users <> [] /\ Z.of_nat (length four_users) <= 10 < 2 ^ 63
  /\ output (list_paginated lenient show 10 0 four_users)
     = page_header 10 0 :: output (get_all_users lenient show four_users).
Proof.
  assert (four_users <> []) as Hrows by discriminate.
  assert (Z.of_nat (length four_users) <= 10 < 2 ^ 63) as Hlimit by (cbn; lia).
  split; [exact Hrows|]. split; [exact Hlimit|].
  exact (list_paginated_everything lenient show 10 four_users Hrows Hlimit).
Defined.

Lemma cli_raise_keeps_store_witness :
  raised (cli strict show (ListPaginated (Some (-1)) None) four_users)
  = Some DBAPIError
  /\ store (cli strict show (ListPaginated (Some (-1)) None) four_users)
     = four_users.
Proof.
  assert (raised (cli strict show (ListPaginated (Some (-1)) None) four_users)
          = Some DBAPIError) as Hraised by reflexivity.
  split; [exact Hraised|].
  exact (cli_raise_keeps_store strict show (ListPaginated (Some (-1)) None)
           four_users DBAPIError Hraised).
Defined.

Lemma change_email_and_back_witness :
  wf_store two_users /\ rick ∈ two_users
  /\ (forall x, x ∈ two_users -> email x <> "r@mail.com")
  /\ store (change_email lenient "rick" "rick@mail.com"
             (store (change_email lenient "rick" "r@mail.com" two_users)))
     = two_users.
Proof.
  assert (wf_store two_users) as Hwf
    by (apply (bool_decide_unpack _); vm_compute; exact I).
  assert (rick ∈ two_users) as Hin
    by (apply list_elem_of_further, list_elem_of_here).
  assert (forall x, x ∈ two_users -> email x <> "r@mail.com") as Hfree.
  { apply (proj1 (Forall_forall _ _)). by repeat constructor. }
  split; [exact Hwf|]. split; [exact Hin|]. split; [exact Hfree|].
  exact (change_email_and_back lenient two_users rick "r@mail.com"
           Hwf Hin Hfree).
Defined.

End Cli.
